(** * Pdfs: the map-listing extractor and the directory archiver

    A shallow embedding of the two scripts of the repository,
    [mapsexcel.py] (class [GoogleMapsExcelExtractor]) and [zip.py], and the
    properties of their control loops, exclusion predicate and phone
    cleaning.

    Conventions.
    - Python [str] values are [string]s of ASCII characters; code points
      above 127 are outside the model.
    - [None] is [None], a present value is [Some].
    - A call that may raise returns an [outcome]: [Ret v] or [Raise msg],
      where [msg] is [str(e)] of the exception.  Only exceptions derived from
      [Exception] are modelled ([KeyboardInterrupt] and [SystemExit] are not).
    - The browser and the file system are parameters: an abstract state with
      the operations the code calls on it. *)

From Stdlib Require Import Ascii String List Arith Bool Lia.
From stdpp Require Import base decidable list gmap.
Import ListNotations.

#[local] Set Warnings "-register-all".
Local Open Scope list_scope.
Local Open Scope string_scope.
#[local] Arguments String.append !_ _ : simpl nomatch.
#[local] Arguments Ascii.eqb : simpl never.
#[local] Arguments String.eqb : simpl never.

(** ** Outcomes of calls that may raise *)

Inductive outcome (A : Type) : Type :=
| Ret (a : A)
| Raise (msg : string).
Arguments Ret {A} a.
Arguments Raise {A} msg.

(** ** Computations on a state that may raise

    A computation runs on a state, changes it, and returns a value or
    raises; what it did to the state before it raised stays done. *)

Definition computation (S A : Type) : Type := S -> S * outcome A.

Definition ret {S A : Type} (a : A) : computation S A := fun st => (st, Ret a).

Definition raise {S A : Type} (msg : string) : computation S A :=
  fun st => (st, Raise msg).

Definition bind {S A B : Type} (m : computation S A) (k : A -> computation S B)
  : computation S B :=
  fun st =>
    let (st', r) := m st in
    match r with
    | Ret a => k a st'
    | Raise msg => (st', Raise msg)
    end.

(** [try: m except Exception: handler] *)
Definition attempt {S A : Type} (m : computation S A) (handler : computation S A)
  : computation S A :=
  fun st =>
    let (st', r) := m st in
    match r with
    | Ret a => (st', Ret a)
    | Raise _ => handler st'
    end.

Declare Scope computation_scope.
Delimit Scope computation_scope with computation.
Notation "x <- m ;; k" := (bind m (fun x => k))
  (at level 100, m at next level, right associativity) : computation_scope.
Notation "m ;; k" := (bind m (fun _ => k))
  (at level 100, right associativity) : computation_scope.

(** ** Python string operations used by the two scripts *)

Module PyStr.

Definition is_upper (c : ascii) : bool :=
  (65 <=? nat_of_ascii c)%nat && (nat_of_ascii c <=? 90)%nat.

Definition lower_char (c : ascii) : ascii :=
  if is_upper c then ascii_of_nat (nat_of_ascii c + 32) else c.

(** [s.lower()] *)
Fixpoint lower (s : string) : string :=
  match s with
  | EmptyString => EmptyString
  | String c s' => String (lower_char c) (lower s')
  end.

(** [s.startswith(p)] *)
Definition startswith (s p : string) : bool := String.prefix p s.

(** [s.endswith(suf)]: [s] is [suf], or the tail of [s] ends with [suf]. *)
Fixpoint endswith (s suf : string) : bool :=
  if String.eqb s suf then true
  else match s with
       | EmptyString => false
       | String _ s' => endswith s' suf
       end.

(** [c in s] for a single character [c] *)
Fixpoint has_char (c : ascii) (s : string) : bool :=
  match s with
  | EmptyString => false
  | String d s' => Ascii.eqb c d || has_char c s'
  end.

(** [needle in s] *)
Fixpoint contains (needle s : string) : bool :=
  String.prefix needle s ||
  match s with
  | EmptyString => false
  | String _ s' => contains needle s'
  end.

(** Characters removed by [str.strip()] among the ASCII ones: tab, line
    feed, vertical tab, form feed, carriage return, the four separators
    28..31 and the space. *)
Definition is_space (c : ascii) : bool :=
  let n := nat_of_ascii c in
  ((9 <=? n)%nat && (n <=? 13)%nat) || ((28 <=? n)%nat && (n <=? 32)%nat).

Fixpoint lstrip (s : string) : string :=
  match s with
  | EmptyString => EmptyString
  | String c s' => if is_space c then lstrip s' else s
  end.

Fixpoint rstrip (s : string) : string :=
  match s with
  | EmptyString => EmptyString
  | String c s' =>
      match rstrip s' with
      | EmptyString => if is_space c then EmptyString else String c EmptyString
      | r => String c r
      end
  end.

(** [s.strip()] *)
Definition strip (s : string) : string := rstrip (lstrip s).

(** [s.split(sep, 1)[1]] for a single character [sep]: the text after the
    first [sep]; [None] stands for the [IndexError] when [sep] is absent. *)
Fixpoint after_first (sep : ascii) (s : string) : option string :=
  match s with
  | EmptyString => None
  | String c s' => if Ascii.eqb c sep then Some s' else after_first sep s'
  end.

(** [s.replace(old, '')] *)
Fixpoint remove_all (fuel : nat) (old s : string) : string :=
  match fuel with
  | O => s
  | S fuel' =>
      match s with
      | EmptyString => EmptyString
      | String c s' =>
          if String.prefix old s && negb (String.eqb old EmptyString)
          then remove_all fuel' old
                 (substring (String.length old) (String.length s - String.length old) s)
          else String c (remove_all fuel' old s')
      end
  end.

Definition replace_empty (s old : string) : string :=
  remove_all (String.length s) old s.

(** Keep the characters that satisfy [keep]: [re.sub('[^...]', '', s)]
    for a character class. *)
Fixpoint keep_chars (keep : ascii -> bool) (s : string) : string :=
  match s with
  | EmptyString => EmptyString
  | String c s' =>
      if keep c then String c (keep_chars keep s') else keep_chars keep s'
  end.

(** [\d] on ASCII text *)
Definition is_digit (c : ascii) : bool :=
  (48 <=? nat_of_ascii c)%nat && (nat_of_ascii c <=? 57)%nat.

(** The longest prefix of [s] made of characters of the class. *)
Fixpoint take_class (cls : ascii -> bool) (s : string) : string :=
  match s with
  | EmptyString => EmptyString
  | String c s' => if cls c then String c (take_class cls s') else EmptyString
  end.

(** [re.search('([...]+)', s)]: the first maximal run of characters of the
    class, [None] when there is none. *)
Fixpoint search_class (cls : ascii -> bool) (s : string) : option string :=
  match s with
  | EmptyString => None
  | String c s' => if cls c then Some (take_class cls s) else search_class cls s'
  end.

(** Truth value of a [str]. *)
Definition truthy (s : string) : bool := negb (String.eqb s EmptyString).

(** Truth value of an optional [str]: [None] and [''] are false. *)
Definition truthy_opt (o : option string) : bool :=
  match o with
  | Some s => truthy s
  | None => false
  end.

(** What "[s] ends with [suf]" and "[s] starts with [p]" mean. *)
Definition ends_with (s suf : string) : Prop := exists pre, s = pre ++ suf.
Definition starts_with (s p : string) : Prop := exists rest, s = p ++ rest.

End PyStr.

(** ** [os.path] on POSIX paths *)

Module OsPath.

(** [os.path.basename(p)]: what follows the last slash. *)
Fixpoint basename (p : string) : string :=
  match p with
  | EmptyString => EmptyString
  | String c q =>
      if PyStr.has_char "/" q then basename q
      else if Ascii.eqb c "/" then q else p
  end.

(** [os.path.join(a, b)] for a relative [b] and an [a] that does not end
    with a slash, as [os.walk('.')] produces them. *)
Definition join (a b : string) : string := a ++ "/" ++ b.

End OsPath.

(** ** [zip.py]: the directory archiver *)

Module Zip.

(** *** The exclusion predicate *)

Definition temp_extensions : list string :=
  [".tmp"; ".temp"; ".swp"; ".bak"; "~"].

Definition should_exclude_file (filepath : string) : bool :=
  let filename := OsPath.basename filepath in
  if PyStr.endswith (PyStr.lower filename) ".zip" then true
  else if PyStr.startswith filename "." then true
  else if existsb (PyStr.endswith filename) temp_extensions then true
  else false.

(** [get_zip_filename()], with the formatted time stamp as a parameter. *)
Definition get_zip_filename (timestamp : string) : string :=
  "directory_backup_" ++ timestamp ++ ".zip".

(** The first lines of [create_directory_zip]: the name the archive is
    created under. *)
Definition archive_name (timestamp : string) (output_filename : option string)
  : string :=
  let output_filename :=
    match output_filename with
    | None => get_zip_filename timestamp
    | Some f => f
    end in
  if negb (PyStr.endswith output_filename ".zip")
  then output_filename ++ ".zip"
  else output_filename.

(** *** The directory tree that [os.walk('.')] sees

    The tree is the content of the working directory at the time of the
    walk, so it holds the archive being written when that one is created
    inside the working directory.  Symbolic links are not modelled. *)

Inductive tree : Type :=
| File (name : string)
| Dir (name : string) (children : list tree).

Definition dir_names (ts : list tree) : list string :=
  flat_map (fun t => match t with Dir n _ => [n] | File _ => [] end) ts.

Definition file_names (ts : list tree) : list string :=
  flat_map (fun t => match t with File n => [n] | Dir _ _ => [] end) ts.

(** One item of [os.walk]: [(root, dirs, files)]. *)
Definition walk_item : Type := string * list string * list string.

(** [os.walk] below a directory [root], top down: the directory itself,
    then every sub-directory listed in [dirs], in order.  The loop body of
    [create_directory_zip] never edits [dirs], so the walk descends into
    all of them. *)
Fixpoint walk_tree (root : string) (t : tree) : list walk_item :=
  match t with
  | File _ => []
  | Dir name children =>
      let path := OsPath.join root name in
      (path, dir_names children, file_names children)
        :: flat_map (walk_tree path) children
  end.

(** [os.walk('.')] on a working directory with content [top]. *)
Definition os_walk (top : list tree) : list walk_item :=
  (".", dir_names top, file_names top) :: flat_map (walk_tree ".") top.

(** *** The archive *)

(** A member of the archive: what [zipf.write(path)] stored. *)
Inductive member : Type :=
| Folder (path : string)
| Member (path : string).

Record counters : Type := {
  members : list member;      (* written so far, oldest first *)
  files_added : nat;
  folders_added : nat;
  files_skipped : nat;
  stdout : list string        (* per-entry, warning and error lines *)
}.

Definition say (line : string) (st : counters) : counters :=
  {| members := members st; files_added := files_added st;
     folders_added := folders_added st; files_skipped := files_skipped st;
     stdout := stdout st ++ [line] |}.

Definition say_if (b : bool) (line : string) (st : counters) : counters :=
  if b then say line st else st.

Definition store (m : member) (st : counters) : counters :=
  {| members := members st ++ [m]; files_added := files_added st;
     folders_added := folders_added st; files_skipped := files_skipped st;
     stdout := stdout st |}.

Definition count_file (st : counters) : counters :=
  {| members := members st; files_added := S (files_added st);
     folders_added := folders_added st; files_skipped := files_skipped st;
     stdout := stdout st |}.

Definition count_folder (st : counters) : counters :=
  {| members := members st; files_added := files_added st;
     folders_added := S (folders_added st); files_skipped := files_skipped st;
     stdout := stdout st |}.

Definition count_skipped (st : counters) : counters :=
  {| members := members st; files_added := files_added st;
     folders_added := folders_added st; files_skipped := S (files_skipped st);
     stdout := stdout st |}.

Definition start : counters :=
  {| members := []; files_added := 0; folders_added := 0;
     files_skipped := 0; stdout := [] |}.

(** Every file stored in the archive passed the exclusion predicate. *)
Definition files_pass (st : counters) : Prop :=
  forall path, In (Member path) (members st) ->
               should_exclude_file path = false.

(** The paths of the directories that a walk hands to [zipf.write]. *)
Definition folder_paths (items : list walk_item) : list string :=
  flat_map (fun item : walk_item =>
              let '(root, dirs, _) := item in map (OsPath.join root) dirs)
           items.

Section Archiver.

(** The [zipfile] and [os] calls that can fail.  Each answers [None] when
    it succeeds and [Some msg] when it raises; a write is asked with the
    members stored so far, so that it may fail at any point of the walk. *)
Variable zip_open : string -> option string.
Variable zip_write : list member -> string -> option string.
Variable zip_close : list member -> option string.
Variable getsize : string -> option string.

Variable exclude_hidden : bool.
Variable verbose : bool.

(** The walk either goes on or leaves the [with] block by an exception. *)
Inductive flow : Type :=
| Going (st : counters)
| Failed (st : counters) (msg : string).

Definition flow_pass (f : flow) : Prop :=
  match f with
  | Going st => files_pass st
  | Failed st _ => files_pass st
  end.

(** Body of [for dir_name in dirs]. *)
Definition add_dir (root : string) (st : counters) (dir_name : string) : flow :=
  let dir_path := OsPath.join root dir_name in
  if exclude_hidden && PyStr.startswith dir_name "." then
    Going (say_if verbose ("Skipped (hidden): " ++ dir_path) st)
  else
    match zip_write (members st) dir_path with
    | Some msg => Failed st msg
    | None =>
        Going (say_if verbose ("Added folder: " ++ dir_path)
                 (count_folder (store (Folder dir_path) st)))
    end.

Fixpoint add_dirs (root : string) (st : counters) (dirs : list string) : flow :=
  match dirs with
  | [] => Going st
  | dir_name :: dirs' =>
      match add_dir root st dir_name with
      | Going st' => add_dirs root st' dirs'
      | Failed st' msg => Failed st' msg
      end
  end.

(** Body of [for file_name in files]; its own [try] keeps a failed write
    inside the loop. *)
Definition add_file (root : string) (st : counters) (file_name : string)
  : counters :=
  let file_path := OsPath.join root file_name in
  if should_exclude_file file_path then
    say_if verbose
      (if PyStr.endswith (PyStr.lower file_name) ".zip"
       then "Skipped (zip file): " ++ file_path
       else "Skipped: " ++ file_path)
      (count_skipped st)
  else if exclude_hidden && PyStr.startswith file_name "." then
    say_if verbose ("Skipped (hidden): " ++ file_path) (count_skipped st)
  else
    match zip_write (members st) file_path with
    | None =>
        say_if verbose ("Added: " ++ file_path)
          (count_file (store (Member file_path) st))
    | Some msg =>
        say ("Warning: Could not add " ++ file_path ++ ": " ++ msg) st
    end.

Definition add_files (root : string) (st : counters) (files : list string)
  : counters :=
  fold_left (add_file root) files st.

(** Body of [for root, dirs, files in os.walk('.')]. *)
Definition visit (st : counters) (item : walk_item) : flow :=
  let '(root, dirs, files) := item in
  match add_dirs root st dirs with
  | Going st' => Going (add_files root st' files)
  | Failed st' msg => Failed st' msg
  end.

Fixpoint walk (st : counters) (items : list walk_item) : flow :=
  match items with
  | [] => Going st
  | item :: items' =>
      match visit st item with
      | Going st' => walk st' items'
      | Failed st' msg => Failed st' msg
      end
  end.

(** What the caller of [create_directory_zip] gets: the returned value
    (or the exception that escapes) and the final counters.  The summary
    printed on success shows the three counters. *)
Definition run : Type := outcome bool * counters.

Definition failure (msg : string) (st : counters) : run :=
  (Ret false, say ("Error creating zip file: " ++ msg) st).

Definition create_directory_zip (timestamp : string)
    (output_filename : option string) (top : list tree) : run :=
  let output_filename := archive_name timestamp output_filename in
  match zip_open output_filename with
  | Some msg => failure msg start
  | None =>
      match walk start (os_walk top) with
      | Failed st msg =>
          (* leaving the [with] block closes the archive; an exception
             of the close replaces the one in flight *)
          match zip_close (members st) with
          | Some msg' => failure msg' st
          | None => failure msg st
          end
      | Going st =>
          match zip_close (members st) with
          | Some msg' => failure msg' st
          | None =>
              match getsize output_filename with
              | Some msg' => (Raise msg', st)
              | None => (Ret true, st)
              end
          end
      end
  end.

(** [main] after argument parsing: the exit status of the process.
    [response] is the line typed at the confirmation prompt, which is
    only shown when [verbose] is off.  An exception that escapes ends the
    process with status 1. *)
Definition confirmed (response : string) : bool :=
  let response := PyStr.strip (PyStr.lower response) in
  String.eqb response "y" || String.eqb response "yes".

Definition main (timestamp : string) (output : option string)
    (response : string) (top : list tree) : nat :=
  if negb verbose && negb (confirmed response) then 0
  else
    match fst (create_directory_zip timestamp output top) with
    | Ret true => 0
    | Ret false => 1
    | Raise _ => 1
    end.

End Archiver.

End Zip.

(** ** [mapsexcel.py]: the listing extractor *)

Module Maps.

(** *** The record of one listing

    The dictionary [details] of [extract_listing_details_from_panel]: ten
    keys, each [None] or a string (the rating and the review count are kept
    as the matched text). *)

Record details : Type := {
  name : option string;
  phone : option string;
  email : option string;
  website : option string;
  address : option string;
  rating : option string;
  reviews_count : option string;
  category : option string;
  hours : option string;
  price_level : option string
}.

Definition no_details : details :=
  {| name := None; phone := None; email := None; website := None;
     address := None; rating := None; reviews_count := None;
     category := None; hours := None; price_level := None |}.

Definition set_name (v : string) (d : details) : details :=
  {| name := Some v; phone := phone d; email := email d; website := website d;
     address := address d; rating := rating d; reviews_count := reviews_count d;
     category := category d; hours := hours d; price_level := price_level d |}.

Definition set_phone (v : string) (d : details) : details :=
  {| name := name d; phone := Some v; email := email d; website := website d;
     address := address d; rating := rating d; reviews_count := reviews_count d;
     category := category d; hours := hours d; price_level := price_level d |}.

Definition set_email (v : string) (d : details) : details :=
  {| name := name d; phone := phone d; email := Some v; website := website d;
     address := address d; rating := rating d; reviews_count := reviews_count d;
     category := category d; hours := hours d; price_level := price_level d |}.

Definition set_website (v : string) (d : details) : details :=
  {| name := name d; phone := phone d; email := email d; website := Some v;
     address := address d; rating := rating d; reviews_count := reviews_count d;
     category := category d; hours := hours d; price_level := price_level d |}.

Definition set_address (v : string) (d : details) : details :=
  {| name := name d; phone := phone d; email := email d; website := website d;
     address := Some v; rating := rating d; reviews_count := reviews_count d;
     category := category d; hours := hours d; price_level := price_level d |}.

Definition set_rating (v : string) (d : details) : details :=
  {| name := name d; phone := phone d; email := email d; website := website d;
     address := address d; rating := Some v; reviews_count := reviews_count d;
     category := category d; hours := hours d; price_level := price_level d |}.

Definition set_reviews_count (v : string) (d : details) : details :=
  {| name := name d; phone := phone d; email := email d; website := website d;
     address := address d; rating := rating d; reviews_count := Some v;
     category := category d; hours := hours d; price_level := price_level d |}.

Definition set_category (v : string) (d : details) : details :=
  {| name := name d; phone := phone d; email := email d; website := website d;
     address := address d; rating := rating d; reviews_count := reviews_count d;
     category := Some v; hours := hours d; price_level := price_level d |}.

Definition set_hours (v : string) (d : details) : details :=
  {| name := name d; phone := phone d; email := email d; website := website d;
     address := address d; rating := rating d; reviews_count := reviews_count d;
     category := category d; hours := Some v; price_level := price_level d |}.

Definition set_price_level (v : string) (d : details) : details :=
  {| name := name d; phone := phone d; email := email d; website := website d;
     address := address d; rating := rating d; reviews_count := reviews_count d;
     category := category d; hours := hours d; price_level := Some v |}.

(** [if details['name']]: the record has a name that is not empty. *)
Definition named (d : details) : bool := PyStr.truthy_opt (name d).

(** *** Phone cleaning *)

Definition digit_or_plus (c : ascii) : bool :=
  PyStr.is_digit c || Ascii.eqb c "+".

(** [clean_phone_number(phone)] on a string ([pd.isna] of a string is
    false). *)
Definition clean_phone_number (phone : string) : string :=
  if String.eqb phone "" || String.eqb phone "nan" then ""
  else
    let cleaned := PyStr.keep_chars digit_or_plus phone in
    if (10 <=? String.length cleaned)%nat then cleaned else phone.

(** The cleaning as the specification words it: only the digits and a
    plus sign at the very start are kept, and the result is the stripped
    form when that one has ten characters or more and the raw string
    otherwise. *)
Definition strip_to_digits_and_leading_plus (s : string) : string :=
  match s with
  | String c rest =>
      if Ascii.eqb c "+" then String c (PyStr.keep_chars PyStr.is_digit rest)
      else PyStr.keep_chars PyStr.is_digit s
  | EmptyString => EmptyString
  end.

Definition clean_phone_as_specified (phone : string) : string :=
  let stripped := strip_to_digits_and_leading_plus phone in
  if (10 <=? String.length stripped)%nat then stripped else phone.

(** *** The detail panel

    The panel is what the Selenium driver answers while one listing is
    open: for a CSS selector, the first matching element (or
    [NoSuchElementException], or any other failure of the driver) and the
    list of all matching elements; for an element, its text and its
    attributes, each of which may fail too (a stale element). *)

Record WebElement : Type := {
  text : outcome string;
  get_attribute : string -> outcome (option string)
}.

Record Panel : Type := {
  find_element : string -> outcome WebElement;
  find_elements : string -> outcome (list WebElement)
}.

(** The double quote inside the selectors. *)
Definition dq : string := String (ascii_of_nat 34) EmptyString.

Definition name_selectors : list string :=
  [ "h1.DUwDvf.fontHeadlineLarge";
    "h1[class*=" ++ dq ++ "fontHeadlineLarge" ++ dq ++ "]";
    "h1.DUwDvf";
    "[role=" ++ dq ++ "main" ++ dq ++ "] h1" ].

Definition category_selector : string :=
  "button[jsaction*=" ++ dq ++ "category" ++ dq ++ "] .DkEaL, .DkEaL".

Definition info_selector : string :=
  "button[data-item-id], button[data-tooltip], a[data-item-id]".

Definition tel_selector : string :=
  "a[href^=" ++ dq ++ "tel:" ++ dq ++ "]".

Definition rating_selector : string :=
  "span[role=" ++ dq ++ "img" ++ dq ++ "][aria-label*=" ++ dq ++ "stars"
    ++ dq ++ "], span.MW4etd".

Definition review_selector : string := "span.UY7F9 a span, .UY7F9".

Definition hours_selector : string :=
  "[data-item-id=" ++ dq ++ "oh" ++ dq
    ++ "] .fontBodyMedium, .t39EBf .fontBodyMedium".

Definition price_selector : string :=
  "span[aria-label*=" ++ dq ++ "Price" ++ dq ++ "], .mgr77e .fontBodyMedium".

Definition main_selector : string := "div[role=" ++ dq ++ "main" ++ dq ++ "]".

Definition phone_patterns : list string :=
  [ "[\+]?[(]?[0-9]{1,3}[)]?[-\s\.]?[(]?[0-9]{1,4}[)]?[-\s\.]?[0-9]{1,4}[-\s\.]?[0-9]{1,9}";
    "\b\d{3}[-.]?\d{3}[-.]?\d{4}\b";
    "\b\d{10}\b" ].

Definition email_pattern : string :=
  "\b[A-Za-z0-9._%+-]+@[A-Za-z0-9.-]+\.[A-Z|a-z]{2,}\b".

(** The parse threads the dictionary being filled and, as a ghost, the
    selectors it asked the driver for, oldest first; an exception leaves
    both as they were when it was raised. *)
Record parse : Type := {
  record : details;
  queries : list string
}.

Definition parser (A : Type) : Type := computation parse A.

Local Open Scope computation_scope.

(** A call on an element: no selector is asked. *)
Definition lift {A : Type} (r : outcome A) : parser A := fun st => (st, r).

(** [try: m except: pass] (and [except: continue] at the end of a loop
    body). *)
Definition try_pass (m : parser unit) : parser unit :=
  fun st => let (st', _) := m st in (st', Ret tt).

Definition assign (f : details -> details) : parser unit :=
  fun st => ({| record := f (record st); queries := queries st |}, Ret tt).

Definition current : parser details := fun st => (st, Ret (record st)).

Definition asked (sel : string) (st : parse) : parse :=
  {| record := record st; queries := queries st ++ [sel] |}.

Section Parser.

(** [re.findall(pattern, text)] for the two patterns with repetition
    counts and word boundaries; the other patterns of the script are
    character classes and are written out in [PyStr]. *)
Variable re_findall : string -> string -> list string.

Variable driver : Panel.

Definition driver_find_element (sel : string) : parser WebElement :=
  fun st => (asked sel st, find_element driver sel).

Definition driver_find_elements (sel : string) : parser (list WebElement) :=
  fun st => (asked sel st, find_elements driver sel).

(** [o or ''] *)
Definition or_empty (o : option string) : string :=
  match o with
  | Some s => s
  | None => EmptyString
  end.

(** [extract_phone_from_text(text)] *)
Fixpoint first_long_match (patterns : list string) (text : string)
  : option string :=
  match patterns with
  | [] => None
  | pattern :: patterns' =>
      match re_findall pattern text with
      | found :: _ =>
          let phone := PyStr.strip found in
          if (10 <=? String.length phone)%nat then Some phone
          else first_long_match patterns' text
      | [] => first_long_match patterns' text
      end
  end.

Definition extract_phone_from_text (text : string) : option string :=
  if negb (PyStr.truthy text) then None
  else first_long_match phone_patterns (PyStr.strip text).

(** [for selector in name_selectors]: the first selector whose element
    has a text sets the name and ends the loop; a selector that raises
    is skipped. *)
Fixpoint extract_name (selectors : list string) : parser unit :=
  match selectors with
  | [] => ret tt
  | selector :: selectors' =>
      fun st =>
        let (st', r) :=
          (name_element <- driver_find_element selector ;;
           t <- lift (text name_element) ;;
           if PyStr.truthy t then
             t' <- lift (text name_element) ;;
             assign (set_name (PyStr.strip t')) ;;
             ret true
           else ret false) st in
        match r with
        | Ret true => (st', Ret tt)
        | Ret false => extract_name selectors' st'
        | Raise _ => extract_name selectors' st'
        end
  end.

Definition extract_category : parser unit :=
  try_pass
    (category_element <- driver_find_element category_selector ;;
     t <- lift (text category_element) ;;
     if PyStr.truthy t then
       t' <- lift (text category_element) ;;
       assign (set_category (PyStr.strip t'))
     else ret tt).

(** [aria_label.split(':', 1)[1].strip()] *)
Definition after_colon (aria_label : string) : parser string :=
  match PyStr.after_first ":" aria_label with
  | Some rest => ret (PyStr.strip rest)
  | None => raise "list index out of range"
  end.

(** Body of [for button in info_buttons]. *)
Definition extract_info (button : WebElement) : parser unit :=
  try_pass
    (item_id <- lift (get_attribute button "data-item-id") ;;
     aria_label <- lift (get_attribute button "aria-label") ;;
     t <- lift (text button) ;;
     let item_id := or_empty item_id in
     let aria_label := or_empty aria_label in
     let has word :=
       PyStr.contains word (PyStr.lower item_id)
       || PyStr.contains word (PyStr.lower aria_label) in
     if has "phone" then
       if PyStr.truthy aria_label && PyStr.has_char ":" aria_label then
         phone_text <- after_colon aria_label ;;
         assign (set_phone phone_text)
       else if PyStr.truthy t then
         match extract_phone_from_text t with
         | Some p => if PyStr.truthy p then assign (set_phone p) else ret tt
         | None => ret tt
         end
       else ret tt
     else if has "website" then
       if PyStr.truthy t
          && (PyStr.has_char "." t || PyStr.contains "http" (PyStr.lower t))
       then assign (set_website (PyStr.strip t))
       else ret tt
     else if has "address" then
       if PyStr.truthy aria_label && PyStr.has_char ":" aria_label then
         a <- after_colon aria_label ;;
         assign (set_address a)
       else if PyStr.truthy t then assign (set_address (PyStr.strip t))
       else ret tt
     else ret tt).

Fixpoint extract_infos (buttons : list WebElement) : parser unit :=
  match buttons with
  | [] => ret tt
  | button :: buttons' => extract_info button ;; extract_infos buttons'
  end.

Definition extract_tel_link : parser unit :=
  d <- current ;;
  if negb (PyStr.truthy_opt (phone d)) then
    try_pass
      (phone_links <- driver_find_elements tel_selector ;;
       match phone_links with
       | [] => ret tt
       | link :: _ =>
           phone_href <- lift (get_attribute link "href") ;;
           match phone_href with
           | Some href =>
               assign (set_phone (PyStr.strip (PyStr.replace_empty href "tel:")))
           | None => raise "'NoneType' object has no attribute 'replace'"
           end
       end)
  else ret tt.

(** [el.get_attribute('aria-label') or el.text] *)
Definition label_or_text (el : WebElement) : parser string :=
  label <- lift (get_attribute el "aria-label") ;;
  if PyStr.truthy_opt label then ret (or_empty label) else lift (text el).

Definition digit_or_dot (c : ascii) : bool :=
  PyStr.is_digit c || Ascii.eqb c ".".

Definition digit_or_comma (c : ascii) : bool :=
  PyStr.is_digit c || Ascii.eqb c ",".

(** The rating and the review count share one [try]. *)
Definition extract_rating_and_reviews : parser unit :=
  try_pass
    (rating_element <- driver_find_element rating_selector ;;
     rating_text <- label_or_text rating_element ;;
     (if PyStr.truthy rating_text then
        match PyStr.search_class digit_or_dot rating_text with
        | Some m => assign (set_rating m)
        | None => ret tt
        end
      else ret tt) ;;
     review_element <- driver_find_element review_selector ;;
     t <- lift (text review_element) ;;
     if PyStr.truthy t then
       review_text <- lift (text review_element) ;;
       match PyStr.search_class digit_or_comma review_text with
       | Some m => assign (set_reviews_count (PyStr.replace_empty m ","))
       | None => ret tt
       end
     else ret tt).

Definition extract_hours : parser unit :=
  try_pass
    (hours_element <- driver_find_element hours_selector ;;
     t <- lift (text hours_element) ;;
     if PyStr.truthy t then
       t' <- lift (text hours_element) ;;
       assign (set_hours (PyStr.strip t'))
     else ret tt).

Definition extract_price : parser unit :=
  try_pass
    (price_element <- driver_find_element price_selector ;;
     price_text <- label_or_text price_element ;;
     if PyStr.truthy price_text && PyStr.has_char "$" price_text
     then assign (set_price_level (PyStr.strip price_text))
     else ret tt).

Definition extract_email : parser unit :=
  try_pass
    (panel <- driver_find_element main_selector ;;
     panel_text <- lift (text panel) ;;
     match re_findall email_pattern panel_text with
     | e :: _ => assign (set_email e)
     | [] => ret tt
     end).

(** The body of the outer [try].  The query for the info buttons is the
    one driver call that no inner [try] guards. *)
Definition extract_fields : parser unit :=
  extract_name name_selectors ;;
  extract_category ;;
  info_buttons <- driver_find_elements info_selector ;;
  extract_infos info_buttons ;;
  extract_tel_link ;;
  extract_rating_and_reviews ;;
  extract_hours ;;
  extract_price ;;
  extract_email.

Definition new_parse : parse := {| record := no_details; queries := [] |}.

(** [extract_listing_details_from_panel()]: the outer [except] logs the
    error, and both ways reach [return details]. *)
Definition extract_listing_details_from_panel : parse * outcome details :=
  let (st, r) := extract_fields new_parse in
  match r with
  | Ret _ => (st, Ret (record st))
  | Raise _ => (st, Ret (record st))
  end.

End Parser.

(** *** The helper methods of the loop

    The browser as the three helper methods use it: a state [D] and the
    driver calls on the results feed, each of which may change the state and
    may raise.  Every helper wraps its body in a [try] that answers [False]
    (or 0) on any exception. *)

Section Helpers.

Variable D : Type.
Variable Feed : Type.                 (* the element of the results feed *)
Variable Link : Type.                 (* a listing link inside the feed *)
Variable find_feed : computation D Feed.
Variable find_listings : Feed -> computation D (list Link).
Variable scroll_into_view : Link -> computation D unit.
Variable click_link : Link -> computation D unit.
Variable scroll_to_bottom : Feed -> computation D unit.

(** [get_total_results_count()] *)
Definition get_total_results_count : computation D nat :=
  attempt
    (results_panel <- find_feed ;;
     listings <- find_listings results_panel ;;
     ret (List.length listings))
    (ret 0).

(** [click_listing_by_index(index)] *)
Definition click_listing_by_index (index : nat) : computation D bool :=
  attempt
    (results_panel <- find_feed ;;
     listings <- find_listings results_panel ;;
     match listings !! index with
     | None => ret false
     | Some listing =>
         scroll_into_view listing ;;
         click_link listing ;;
         ret true
     end)
    (ret false).

(** [scroll_results_panel()] *)
Definition scroll_results_panel : computation D bool :=
  attempt
    (results_panel <- find_feed ;;
     before_scroll <- get_total_results_count ;;
     scroll_to_bottom results_panel ;;
     after_scroll <- get_total_results_count ;;
     ret (before_scroll <? after_scroll)%nat)
    (ret false).

(** The detail parse on the panel that the browser shows in state [d]. *)
Definition parse_panel (re_findall : string -> string -> list string)
    (panel : D -> Panel) : computation D details :=
  fun d => (d, snd (extract_listing_details_from_panel re_findall (panel d))).

End Helpers.

(** A computation that never raises. *)
Definition returns {S A : Type} (m : computation S A) : Prop :=
  forall st, exists a, snd (m st) = Ret a.

(** [st'] comes later in a parse than [st]: it has the queries of [st],
    followed by more. *)
Definition later (st st' : parse) : Prop :=
  exists more, queries st' = (queries st ++ more)%list.

(** A computation of the parse only adds queries. *)
Definition growing {A : Type} (m : parser A) : Prop :=
  forall st, later st (fst (m st)).

(** A guarded block: it never raises and only adds queries. *)
Definition guarded (m : parser unit) : Prop :=
  forall st, exists st', m st = (st', Ret tt) /\ later st st'.

(** *** Panels for the examples *)

Definition element (t : string) : WebElement :=
  {| text := Ret t; get_attribute := fun _ => Ret None |}.

(** A panel with a heading and a review count but no rating element, as
    for a listing that nobody has rated with stars yet; a panel that has
    the rating element as well. *)
Definition unrated_panel : Panel :=
  {| find_element := fun sel =>
       if String.eqb sel "h1.DUwDvf.fontHeadlineLarge" then Ret (element " Blue Cafe ")
       else if String.eqb sel review_selector then Ret (element "1,234 reviews")
       else Raise "no such element";
     find_elements := fun _ => Ret [] |}.

Definition rated_panel : Panel :=
  {| find_element := fun sel =>
       if String.eqb sel "h1.DUwDvf.fontHeadlineLarge" then Ret (element " Blue Cafe ")
       else if String.eqb sel rating_selector then Ret (element "4.5")
       else if String.eqb sel review_selector then Ret (element "1,234 reviews")
       else Raise "no such element";
     find_elements := fun _ => Ret [] |}.

Definition no_matches (pattern text : string) : list string := [].

(** *** The extraction loop *)

(** [str(e)] tells a lost browser. *)
Definition connection_lost (msg : string) : bool :=
  PyStr.contains "connection" (PyStr.lower msg)
  || PyStr.contains "session" (PyStr.lower msg).

(** The calls the loop makes on the page, for the ghost log. *)
Inductive call : Type :=
| ReadStop
| Count
| Click (i : nat)
| Extract
| Scroll.

Definition is_scroll (c : call) : bool :=
  match c with
  | Scroll => true
  | _ => false
  end.

Definition is_click (c : call) : bool :=
  match c with
  | Click _ => true
  | _ => false
  end.

(** How many listings were clicked. *)
Definition clicks (log : list call) : nat :=
  List.length (List.filter is_click log).

(** How often the results panel was scrolled. *)
Definition scrolls (log : list call) : nat :=
  List.length (List.filter is_scroll log).

(** Why [extract_all_results] left its loop. *)
Inductive reason : Type :=
| StopRequested                (* [self.stop_extraction] was set *)
| NoListings                   (* zero items at loop entry *)
| NoMoreResults                (* [no_new_results_count > 3] *)
| ConnectionLost               (* the last scroll of a round lost the browser *)
| ExtractionError (msg : string).  (* the outer [except] *)

Inductive status : Type :=
| Finished (why : reason)
| Running.                     (* the fuel ran out with the loop still going *)

(** [break], or go on with the next index. *)
Inductive control : Type :=
| Next
| Break.

Section Loop.

(** The browser session as the loop sees it: a state [W] and the four
    helper methods, each of which may change the state and may raise.
    Reading [self.stop_extraction] goes through the state as well, since
    the signal handler sets the flag at any time.  (The helper methods of
    the class catch their own exceptions: what they return on a failure
    is [False], or 0 for the count.) *)
Variable W : Type.
Variable stop_extraction : W -> W * bool.
Variable get_total_results_count : W -> W * outcome nat.
Variable click_listing_by_index : nat -> W -> W * outcome bool.
Variable extract_listing_details_from_panel : W -> W * outcome details.
Variable scroll_results_panel : W -> W * outcome bool.

(** The variables of one run.  [new_results_found] is written and never
    read, and is left out; [calls] is a ghost. *)
Record session : Type := {
  results : list details;
  processed_indices : gset nat;
  consecutive_failures : nat;
  no_new_results_count : nat;
  page : W;
  calls : list call
}.

Definition on_page (c : call) (w : W) (s : session) : session :=
  {| results := results s; processed_indices := processed_indices s;
     consecutive_failures := consecutive_failures s;
     no_new_results_count := no_new_results_count s;
     page := w; calls := calls s ++ [c] |}.

Definition with_failures (n : nat) (s : session) : session :=
  {| results := results s; processed_indices := processed_indices s;
     consecutive_failures := n;
     no_new_results_count := no_new_results_count s;
     page := page s; calls := calls s |}.

Definition with_no_new (n : nat) (s : session) : session :=
  {| results := results s; processed_indices := processed_indices s;
     consecutive_failures := consecutive_failures s;
     no_new_results_count := n;
     page := page s; calls := calls s |}.

(** [self.results.append(details); processed_indices.add(i);
    consecutive_failures = 0]. *)
Definition keep (d : details) (i : nat) (s : session) : session :=
  {| results := results s ++ [d];
     processed_indices := {[ i ]} ∪ processed_indices s;
     consecutive_failures := 0;
     no_new_results_count := no_new_results_count s;
     page := page s; calls := calls s |}.

Definition failed (s : session) : session :=
  with_failures (S (consecutive_failures s)) s.

Definition read_stop (s : session) : session * bool :=
  let (w, b) := stop_extraction (page s) in (on_page ReadStop w s, b).

Definition count (s : session) : session * outcome nat :=
  let (w, r) := get_total_results_count (page s) in (on_page Count w s, r).

Definition click (i : nat) (s : session) : session * outcome bool :=
  let (w, r) := click_listing_by_index i (page s) in (on_page (Click i) w s, r).

Definition extract (s : session) : session * outcome details :=
  let (w, r) := extract_listing_details_from_panel (page s) in
  (on_page Extract w s, r).

Definition scroll (s : session) : session * outcome bool :=
  let (w, r) := scroll_results_panel (page s) in (on_page Scroll w s, r).

(** [if not self.scroll_results_panel(): no_new_results_count += 1
    else: no_new_results_count = 0]. *)
Definition scrolled (grew : bool) (s : session) : session :=
  if grew then with_no_new 0 s
  else with_no_new (S (no_new_results_count s)) s.

(** The [except] of one listing: count the failure, and [break] when the
    message tells a lost browser. *)
Definition listing_error (msg : string) (s : session) : session * control :=
  (failed s, if connection_lost msg then Break else Next).

(** The [try] statement of one listing. *)
Definition try_listing (i : nat) (s : session) : session * control :=
  let (s1, clicked) := click i s in
  match clicked with
  | Ret true =>
      let (s2, parsed) := extract s1 in
      match parsed with
      | Ret d => if named d then (keep d i s2, Next) else (failed s2, Next)
      | Raise msg => listing_error msg s2
      end
  | Ret false => (failed s1, Next)
  | Raise msg => listing_error msg s1
  end.

(** [if consecutive_failures > 3]: scroll for more results. *)
Definition scroll_after_failures (s : session) : session * control :=
  if (3 <? consecutive_failures s)%nat then
    let (s1, r) := scroll s in
    match r with
    | Ret grew => (with_failures 0 (scrolled grew s1), Next)
    | Raise msg => (s1, if connection_lost msg then Break else Next)
    end
  else (s, Next).

(** Body of [for i in range(total_listings)]. *)
Definition visit (i : nat) (s : session) : session * control :=
  let (s0, stop) := read_stop s in
  if stop then (s0, Break)
  else if bool_decide (i ∈ processed_indices s0) then (s0, Next)
  else
    let (s1, c) := try_listing i s0 in
    match c with
    | Break => (s1, Break)
    | Next => scroll_after_failures s1
    end.

Fixpoint scan (indices : list nat) (s : session) : session :=
  match indices with
  | [] => s
  | i :: indices' =>
      let (s', c) := visit i s in
      match c with
      | Next => scan indices' s'
      | Break => s'
      end
  end.

(** The end of one round of the [while] loop: the scroll that is always
    tried, and the test of the no-growth counter.  [None] stands for the
    next round. *)
Definition load_more (s : session) : session * option reason :=
  let (s1, r) := scroll s in
  match r with
  | Raise msg =>
      if connection_lost msg then (s1, Some ConnectionLost)
      else if (3 <? no_new_results_count s1)%nat then (s1, Some NoMoreResults)
      else (s1, None)
  | Ret grew =>
      let s2 := scrolled grew s1 in
      if (3 <? no_new_results_count s2)%nat then (s2, Some NoMoreResults)
      else (s2, None)
  end.

(** One round of [while not self.stop_extraction]. *)
Definition round (s : session) : session * option reason :=
  let (s0, stop) := read_stop s in
  if stop then (s0, Some StopRequested)
  else
    let (s1, total) := count s0 in
    match total with
    | Raise msg => (s1, Some (ExtractionError msg))
    | Ret 0 => (s1, Some NoListings)
    | Ret total_listings =>
        let s2 := scan (seq 0 total_listings) s1 in
        let (s3, stop) := read_stop s2 in
        if stop then (s3, Some StopRequested) else load_more s3
    end.

(** The [while] loop, for at most [fuel] rounds. *)
Fixpoint extract_loop (fuel : nat) (s : session) : session * status :=
  match fuel with
  | O => (s, Running)
  | S fuel' =>
      let (s', why) := round s in
      match why with
      | Some why => (s', Finished why)
      | None => extract_loop fuel' s'
      end
  end.

(** The state at the call: [self.results] as it stands, fresh local
    variables. *)
Definition enter (found : list details) (w : W) : session :=
  {| results := found; processed_indices := ∅; consecutive_failures := 0;
     no_new_results_count := 0; page := w; calls := [] |}.

(** [extract_all_results()]: [self.results] when the loop has ended
    within [fuel] rounds. *)
Definition extract_all_results (fuel : nat) (found : list details) (w : W)
  : option (list details) :=
  let (s, st) := extract_loop fuel (enter found w) in
  match st with
  | Finished _ => Some (results s)
  | Running => None
  end.

(** What the properties of the loop speak about. *)

(** [s'] has the results of [s], in place, followed by records that all
    have a name. *)
Definition appended (s s' : session) : Prop :=
  exists new,
    results s' = (results s ++ new)%list
    /\ Forall (fun d => named d = true) new.

(** The attempt on listing [i] fails without a lost browser: the click
    answers [False], or the parsed record has no name, or one of the two
    raises with a message that does not tell a lost browser. *)
Definition listing_fails (i : nat) (w : W) : Prop :=
  match click_listing_by_index i w with
  | (_, Ret false) => True
  | (w1, Ret true) =>
      match extract_listing_details_from_panel w1 with
      | (_, Ret d) => named d = false
      | (_, Raise msg) => connection_lost msg = false
      end
  | (_, Raise msg) => connection_lost msg = false
  end.

(** A bound on the growth that is left in the feed: no call raises it,
    and a scroll that reports new items, or that fails for another
    reason than a lost browser, lowers it. *)
Definition bounds_growth (budget : W -> nat) : Prop :=
  (forall w, budget (fst (stop_extraction w)) <= budget w)
  /\ (forall w, budget (fst (get_total_results_count w)) <= budget w)
  /\ (forall i w, budget (fst (click_listing_by_index i w)) <= budget w)
  /\ (forall w, budget (fst (extract_listing_details_from_panel w)) <= budget w)
  /\ (forall w,
        match scroll_results_panel w with
        | (w', Ret true) => budget w' < budget w
        | (w', Ret false) => budget w' <= budget w
        | (w', Raise msg) =>
            if connection_lost msg then budget w' <= budget w
            else budget w' < budget w
        end).

(** Lexicographic progress of a run towards its end: the budget does not
    grow, and when it stays the no-growth counter does not fall. *)
Definition progress (budget : W -> nat) (s s' : session) : Prop :=
  budget (page s') <= budget (page s)
  /\ (budget (page s') < budget (page s)
      \/ no_new_results_count s <= no_new_results_count s').

(** The scrolls of a run are paid for: four times their number, and the
    running streak, and [a], do not exceed the number of clicks and [b]. *)
Definition paid (a b : nat) (s : session) : Prop :=
  4 * scrolls (calls s) + consecutive_failures s + a <= clicks (calls s) + b.

End Loop.

Arguments results {W} _.
Arguments processed_indices {W} _.
Arguments consecutive_failures {W} _.
Arguments no_new_results_count {W} _.
Arguments page {W} _.
Arguments calls {W} _.
Arguments on_page {W} _ _ _.
Arguments with_failures {W} _ _.
Arguments with_no_new {W} _ _.
Arguments keep {W} _ _ _.
Arguments failed {W} _.
Arguments scrolled {W} _ _.
Arguments listing_error {W} _ _.
Arguments enter {W} _ _.
Arguments appended {W} _ _.
Arguments progress {W} _ _ _.
Arguments paid {W} _ _ _.

(** *** Feeds for the examples *)

Definition listing (n : string) : details := set_name n no_details.

(** A feed with [loaded] listings shown out of [total]: a scroll loads one
    more while some are left; every listing opens and has a name. *)
Record feed : Type := { loaded : nat; total : nat }.

Definition feed_stop (f : feed) : feed * bool := (f, false).
Definition feed_count (f : feed) : feed * outcome nat := (f, Ret (loaded f)).
Definition feed_click (i : nat) (f : feed) : feed * outcome bool :=
  (f, Ret (i <? loaded f)%nat).
Definition feed_extract (f : feed) : feed * outcome details :=
  (f, Ret (listing "Cafe")).
Definition feed_scroll (f : feed) : feed * outcome bool :=
  if (loaded f <? total f)%nat
  then ({| loaded := S (loaded f); total := total f |}, Ret true)
  else (f, Ret false).

(** A feed without end: one listing is shown at first and every scroll
    loads one more.  The state is the number of scrolls made. *)
Definition endless_scroll (n : nat) : nat * outcome bool := (S n, Ret true).
Definition endless_stop (n : nat) : nat * bool := (n, false).
Definition endless_count (n : nat) : nat * outcome nat := (n, Ret (S n)).
Definition endless_click (i n : nat) : nat * outcome bool := (n, Ret true).
Definition endless_extract (n : nat) : nat * outcome details :=
  (n, Ret (listing "Cafe")).

(** A feed of a fixed number of listings none of which opens: every click
    answers [False], and no scroll loads anything.  The state is the
    number of listings. *)
Definition closed_stop (n : nat) : nat * bool := (n, false).
Definition closed_count (n : nat) : nat * outcome nat := (n, Ret n).
Definition closed_click (i n : nat) : nat * outcome bool := (n, Ret false).
Definition closed_extract (n : nat) : nat * outcome details :=
  (n, Ret no_details).
Definition closed_scroll (n : nat) : nat * outcome bool := (n, Ret false).

(** A feed of one listing where the first click raises with a message of
    a lost session and the browser answers normally afterwards.  The state
    tells whether that click has happened. *)
Definition flaky_stop (b : bool) : bool * bool := (b, false).
Definition flaky_count (b : bool) : bool * outcome nat := (b, Ret 1).
Definition flaky_click (i : nat) (b : bool) : bool * outcome bool :=
  if b then (b, Ret true) else (true, Raise "invalid session id").
Definition flaky_extract (b : bool) : bool * outcome details :=
  (b, Ret (listing "Cafe")).
Definition flaky_scroll (b : bool) : bool * outcome bool := (b, Ret false).

End Maps.

(** ** [zip.py]: counting the entries *)

Module ZipCount.
Import Zip.

(** The files and the directories of a tree, however deep. *)
Fixpoint tree_files (t : tree) : nat :=
  match t with
  | File _ => 1
  | Dir _ children => list_sum (map tree_files children)
  end.

Fixpoint tree_dirs (t : tree) : nat :=
  match t with
  | File _ => 0
  | Dir _ children => S (list_sum (map tree_dirs children))
  end.

(** The files and the directories that a walk lists. *)
Definition walk_files (items : list walk_item) : nat :=
  list_sum (map (fun item : walk_item => List.length (snd item)) items).

Definition walk_dirs (items : list walk_item) : nat :=
  list_sum (map (fun item : walk_item => List.length (snd (fst item))) items).

(** [f.lower().endswith('.zip')] *)
Definition is_zip (file_name : string) : bool :=
  PyStr.endswith (PyStr.lower file_name) ".zip".

(** The preview loop of [main]: [(total_items, zip_files)]. *)
Definition preview (items : list walk_item) : nat * nat :=
  fold_left
    (fun (acc : nat * nat) (item : walk_item) =>
       let '(total_items, zip_files) := acc in
       let '(_, dirs, files) := item in
       (total_items + (List.length files + List.length dirs),
        zip_files + List.length (List.filter is_zip files)))
    items (0, 0).

(** The number shown as "Approximately ... items will be zipped". *)
Definition approximately (items : list walk_item) : nat :=
  fst (preview items) - snd (preview items).

(** The test of [add_file] for skipping a file, with hidden exclusion
    [exclude_hidden]. *)
Definition skips (exclude_hidden : bool) (root file_name : string) : bool :=
  should_exclude_file (OsPath.join root file_name)
  || (exclude_hidden && PyStr.startswith file_name ".").

(** The files of a walk that [add_file] skips. *)
Definition walk_skipped (exclude_hidden : bool) (items : list walk_item) : nat :=
  list_sum
    (map (fun item : walk_item =>
            List.length (List.filter (skips exclude_hidden (fst (fst item)))
                           (snd item)))
         items).

(** The members of an archive that are files. *)
Definition is_member (m : member) : bool :=
  match m with
  | Member _ => true
  | Folder _ => false
  end.

(** The files of a walk whose name ends with ".zip" in any letter case. *)
Definition walk_zips (items : list walk_item) : nat :=
  list_sum
    (map (fun item : walk_item => List.length (List.filter is_zip (snd item)))
         items).

(** The counters a walk ended with, whether it went through or failed. *)
Definition ended (f : flow) : counters :=
  match f with
  | Going st => st
  | Failed st _ => st
  end.

(** The counters tell what the archive holds: as many files and folders
    as were stored. *)
Definition tallied (st : counters) : Prop :=
  files_added st = List.length (List.filter is_member (members st))
  /\ folders_added st
     = List.length (List.filter (fun m => negb (is_member m)) (members st)).

(** From [st] to [st'], out of [n] files of which [z] are zip files: no
    file is counted twice, no zip file is added, [k] files are skipped and no
    folder is added. *)
Definition counted (n z k : nat) (st st' : counters) : Prop :=
  files_added st' + files_skipped st' <= files_added st + files_skipped st + n
  /\ files_added st' + z <= files_added st + n
  /\ files_skipped st' = files_skipped st + k
  /\ folders_added st' = folders_added st.

End ZipCount.

(** ** [mapsexcel.py]: around the loop *)

Module MapsRun.
Import Maps.

Local Open Scope computation_scope.

(** *** The name of a listing, as a function of the panel *)

(** The stripped text of the first selector, in order, whose element is
    found and has a text that is not empty. *)
Fixpoint first_heading (driver : Panel) (selectors : list string)
  : option string :=
  match selectors with
  | [] => None
  | selector :: selectors' =>
      match find_element driver selector with
      | Ret name_element =>
          match text name_element with
          | Ret t =>
              if PyStr.truthy t then Some (PyStr.strip t)
              else first_heading driver selectors'
          | Raise _ => first_heading driver selectors'
          end
      | Raise _ => first_heading driver selectors'
      end
  end.

(** A computation of the parse keeps a property of the dictionary. *)
Definition keeps (I : details -> Prop) {A : Type} (m : parser A) : Prop :=
  forall st, I (record st) -> I (record (fst (m st))).

(** A property of the dictionary that no assignment to the category, the
    phone, the website, the address, the hours, the price level or the email
    changes. *)
Definition plain_stable (I : details -> Prop) : Prop :=
  forall v d,
    I d ->
    I (set_category v d) /\ I (set_phone v d) /\ I (set_website v d)
    /\ I (set_address v d) /\ I (set_hours v d) /\ I (set_price_level v d)
    /\ I (set_email v d).

(** Every character of [s] satisfies [cls]. *)
Definition all_chars (cls : ascii -> bool) (s : string) : bool :=
  forallb cls (list_ascii_of_string s).

(** The rating is a run of digits and dots that is not empty, and the
    review count is made of digits. *)
Definition numeric (d : details) : Prop :=
  (forall r, rating d = Some r -> r <> "" /\ all_chars digit_or_dot r = true)
  /\ (forall c, reviews_count d = Some c -> all_chars PyStr.is_digit c = true).

(** *** The name of the result file *)

Definition is_lower (c : ascii) : bool :=
  (97 <=? nat_of_ascii c)%nat && (nat_of_ascii c <=? 122)%nat.

(** [\w] on ASCII text *)
Definition is_word (c : ascii) : bool :=
  PyStr.is_digit c || PyStr.is_upper c || is_lower c || Ascii.eqb c "_".

(** [[\w\s-]] *)
Definition word_space_dash (c : ascii) : bool :=
  is_word c || PyStr.is_space c || Ascii.eqb c "-".

(** [[-\s]] *)
Definition dash_or_space (c : ascii) : bool :=
  Ascii.eqb c "-" || PyStr.is_space c.

(** [re.sub('[...]+', '_', s)] for a character class: every maximal run of
    characters of the class becomes one underscore.  [in_run] tells that the
    character before was of the class. *)
Fixpoint sub_runs (cls : ascii -> bool) (in_run : bool) (s : string) : string :=
  match s with
  | EmptyString => EmptyString
  | String c s' =>
      if cls c then
        if in_run then sub_runs cls true s'
        else String "_" (sub_runs cls true s')
      else String c (sub_runs cls false s')
  end.

(** The two substitutions of the main block on the search query. *)
Definition clean_query (search_query : string) : string :=
  sub_runs dash_or_space false (PyStr.keep_chars word_space_dash search_query).

(** The name of the result file, for the formatted time stamp. *)
Definition result_filename (search_query timestamp : string) : string :=
  if PyStr.truthy search_query
  then "google_maps_" ++ clean_query search_query ++ "_" ++ timestamp ++ ".xlsx"
  else "google_maps_results_" ++ timestamp ++ ".xlsx".

(** *** Opening the map and waiting for the search

    [open_google_maps_and_wait] calls the driver and the terminal once at
    each place, so a run is told by what each call answers: [None] when it
    succeeds, [Some msg] when it raises. *)

Record opening : Type := {
  driver_get : option string;                 (* [self.driver.get(url)] *)
  accept_buttons : outcome (list (option string));
      (* the consent buttons found, each with what its click answers *)
  typed : list string;                        (* the lines typed at the prompts *)
  feed_present : option string                (* [self.wait.until(...)] *)
}.

(** The state is the search query of the extractor and the lines not yet
    read. *)
Record prompt : Type := {
  search_query : string;
  pending : list string
}.

Definition answer (r : option string) : computation prompt unit :=
  fun st => (st, match r with None => Ret tt | Some msg => Raise msg end).

(** [input(...)]: the next line, or [EOFError]. *)
Definition input : computation prompt string :=
  fun st =>
    match pending st with
    | line :: rest =>
        ({| search_query := search_query st; pending := rest |}, Ret line)
    | [] => (st, Raise "EOF when reading a line")
    end.

Definition set_search_query (q : string) : computation prompt unit :=
  fun st => ({| search_query := q; pending := pending st |}, Ret tt).

(** The consent block: click the first button found, if any. *)
Definition handle_consent (o : opening) : computation prompt unit :=
  attempt
    (match accept_buttons o with
     | Raise msg => raise msg
     | Ret [] => ret tt
     | Ret (button :: _) => answer button
     end)
    (ret tt).

Definition open_google_maps_and_wait (o : opening) : computation prompt bool :=
  attempt
    (answer (driver_get o) ;;
     handle_consent o ;;
     search_input <- input ;;
     (let search_input := PyStr.strip search_input in
      if PyStr.truthy search_input then set_search_query search_input
      else ret tt) ;;
     input ;;
     attempt (answer (feed_present o) ;; ret true) (ret false))
    (ret false).

(** *** The books and the exits of the loop *)

(** The run holds one record for each index that it marked as processed,
    besides the [found] records it was entered with; each of these indices
    was clicked, and there are no more new records than clicks. *)
Definition booked {W : Type} (found : nat) (s : session W) : Prop :=
  List.length (results s) = found + size (processed_indices s)
  /\ (forall i, i ∈ processed_indices s -> In (Click i) (calls s))
  /\ List.length (results s) <= found + clicks (calls s).

(** The loop left by one of its own three tests: the stop flag, an empty
    feed, or the no-growth counter. *)
Definition left_by_test (why : reason) : Prop :=
  why = StopRequested \/ why = NoListings \/ why = NoMoreResults.

(** *** A browser for the examples

    The state is the number of listing links that the page would show, but
    the results feed itself is missing; nothing moves, and the stop flag is
    down. *)
Definition lost_feed : computation nat unit := raise "no such element".
Definition still_listings (_ : unit) : computation nat (list nat) :=
  fun n => (n, Ret (seq 0 n)).
Definition still_script (_ : nat) : computation nat unit := ret tt.
Definition still_bottom (_ : unit) : computation nat unit := ret tt.
Definition still_stop (n : nat) : nat * bool := (n, false).

End MapsRun.

(** * Properties *)

(** ** The string operations meet their Python descriptions *)

Module PyStrFacts.
Import PyStr.

Lemma endswith_unfold s suf :
  endswith s suf =
  if String.eqb s suf then true
  else match s with
       | EmptyString => false
       | String _ s' => endswith s' suf
       end.
Proof. destruct s; reflexivity. Qed.

Lemma endswith_refl s : endswith s s = true.
Proof. rewrite endswith_unfold, String.eqb_refl. reflexivity. Qed.

Lemma endswith_cons c s suf : endswith s suf = true -> endswith (String c s) suf = true.
Proof.
  intros H. rewrite endswith_unfold.
  destruct (String.eqb (String c s) suf); [reflexivity | exact H].
Qed.

Lemma endswith_true s suf : endswith s suf = true <-> ends_with s suf.
Proof.
  split.
  - induction s as [|c s IH]; rewrite endswith_unfold.
    + destruct (String.eqb_spec EmptyString suf) as [<-|]; [|discriminate].
      intros _. exists EmptyString. reflexivity.
    + destruct (String.eqb_spec (String c s) suf) as [<-|_].
      * intros _. exists EmptyString. reflexivity.
      * intros H. destruct (IH H) as [pre ->]. exists (String c pre). reflexivity.
  - intros [pre ->]. induction pre as [|c pre IH]; simpl append.
    + apply endswith_refl.
    + apply endswith_cons, IH.
Qed.

Lemma startswith_true s p : startswith s p = true <-> starts_with s p.
Proof.
  unfold startswith, starts_with. revert s.
  induction p as [|c p IH]; intros s.
  - split; [intros _; exists s; reflexivity | intros _; destruct s; reflexivity].
  - destruct s as [|d s]; cbn [String.prefix append].
    + split; [discriminate | intros [rest H]; discriminate].
    + destruct (Ascii.ascii_dec c d) as [->|Hne].
      * rewrite IH. split; intros [rest H]; exists rest.
        -- simpl. now rewrite H.
        -- simpl in H. now injection H.
      * split; [discriminate | intros [rest H]; simpl in H; congruence].
Qed.

Lemma has_char_app c a b : has_char c (a ++ b) = has_char c a || has_char c b.
Proof.
  induction a as [|d a IH]; simpl; [reflexivity|].
  rewrite IH. apply orb_assoc.
Qed.

(** [keep_chars] is the filter of the characters, in order. *)
Lemma keep_chars_filter keep s :
  list_ascii_of_string (keep_chars keep s)
  = List.filter keep (list_ascii_of_string s).
Proof.
  induction s as [|c s IH]; simpl; [reflexivity|].
  destruct (keep c); simpl; now rewrite IH.
Qed.

End PyStrFacts.

Module OsPathFacts.
Import PyStr PyStrFacts OsPath.

(** The base name has no slash, and the path is a directory part, empty
    or ending with a slash, followed by the base name. *)
Lemma basename_spec p :
  has_char "/" (basename p) = false /\
  exists d, p = d ++ basename p /\ (d = EmptyString \/ ends_with d "/").
Proof.
  induction p as [|c q [IHn [d [IHe IHd]]]]; simpl.
  - split; [reflexivity|]. exists EmptyString. split; [reflexivity | now left].
  - destruct (has_char "/" q) eqn:Hq.
    + split; [exact IHn|]. exists (String c d). split.
      * simpl. now rewrite <- IHe.
      * right. destruct IHd as [->|[pre ->]].
        -- simpl in IHe. rewrite <- IHe in IHn. congruence.
        -- exists (String c pre). reflexivity.
    + destruct (Ascii.eqb_spec c "/") as [->|Hc].
      * split; [exact Hq|]. exists "/". split; [reflexivity|].
        right. exists EmptyString. reflexivity.
      * split.
        -- simpl. rewrite Hq.
           destruct (Ascii.eqb_spec "/" c); [congruence | reflexivity].
        -- exists EmptyString. split; [reflexivity | now left].
Qed.

Lemma basename_no_slash p : has_char "/" p = false -> basename p = p.
Proof.
  destruct p as [|c q]; simpl; [reflexivity|].
  destruct (Ascii.eqb_spec "/" c) as [<-|Hc]; simpl; [discriminate|].
  intros ->. destruct (Ascii.eqb_spec c "/"); [congruence | reflexivity].
Qed.

Lemma basename_app_slash d n :
  has_char "/" n = false -> basename (d ++ "/" ++ n) = n.
Proof.
  intros Hn. induction d as [|c d IH]; simpl.
  - rewrite Hn. reflexivity.
  - rewrite has_char_app. simpl. rewrite orb_true_r. exact IH.
Qed.

(** The base name of [os.path.join(root, name)] is [name]. *)
Lemma basename_join root name :
  has_char "/" name = false -> basename (join root name) = name.
Proof. apply basename_app_slash. Qed.

(** A path that ends with [suf], where [suf] has no slash, has a base name
    that ends with [suf]. *)
Lemma basename_ends_with p suf :
  has_char "/" suf = false -> ends_with p suf -> ends_with (basename p) suf.
Proof.
  intros Hs [pre ->]. induction pre as [|c pre IH]; simpl append.
  - rewrite basename_no_slash by exact Hs. exists EmptyString. reflexivity.
  - simpl. rewrite has_char_app, Hs, orb_false_r.
    destruct (has_char "/" pre) eqn:Hp; [exact IH|].
    destruct (Ascii.eqb_spec c "/") as [->|_].
    + exists pre. reflexivity.
    + exists (String c pre). reflexivity.
Qed.

End OsPathFacts.

(** ** The archiver *)

Module ZipFacts.
Import PyStr PyStrFacts OsPath OsPathFacts Zip.

Lemma existsb_endswith name exts :
  existsb (endswith name) exts = true <->
  exists ext, In ext exts /\ ends_with name ext.
Proof.
  rewrite existsb_exists. split; intros [ext [Hin H]]; exists ext;
    (split; [exact Hin | now apply endswith_true]).
Qed.

Lemma should_exclude_file_true filepath :
  should_exclude_file filepath = true <->
  ends_with (lower (basename filepath)) ".zip" \/
  starts_with (basename filepath) "." \/
  exists ext, In ext temp_extensions /\ ends_with (basename filepath) ext.
Proof.
  unfold should_exclude_file.
  rewrite <- endswith_true, <- startswith_true, <- existsb_endswith.
  destruct (endswith (lower (basename filepath)) ".zip");
    destruct (startswith (basename filepath) ".");
    destruct (existsb (endswith (basename filepath)) temp_extensions);
    intuition congruence.
Qed.

(** C5. A path is excluded exactly when its base name ends with ".zip"
    once lowercased, or starts with a dot, or ends with one of ".tmp",
    ".temp", ".swp", ".bak" and "~".  The three names of the specification
    are excluded and its two other names are kept. *)
Theorem should_exclude_file_spec :
  (forall filepath,
      should_exclude_file filepath = true <->
      ends_with (lower (basename filepath)) ".zip" \/
      starts_with (basename filepath) "." \/
      exists ext, In ext [".tmp"; ".temp"; ".swp"; ".bak"; "~"]
                  /\ ends_with (basename filepath) ext)
  /\ should_exclude_file "backup_20230101.zip" = true
  /\ should_exclude_file ".env" = true
  /\ should_exclude_file "notes.tmp" = true
  /\ should_exclude_file "report.xlsx" = false
  /\ should_exclude_file "data/file.csv" = false.
Proof.
  split; [exact should_exclude_file_true | repeat split; reflexivity].
Qed.

(** *** The name of the archive *)

Lemma archive_name_ends_with timestamp output :
  ends_with (archive_name timestamp output) ".zip".
Proof.
  unfold archive_name.
  set (f := match output with None => _ | Some f => f end).
  destruct (endswith f ".zip") eqn:E; simpl.
  - now apply endswith_true.
  - exists f. reflexivity.
Qed.

Lemma lower_app a b : lower (a ++ b) = lower a ++ lower b.
Proof. induction a as [|c a IH]; simpl; [reflexivity | now rewrite IH]. Qed.

Lemma ends_with_lower s suf :
  ends_with s suf -> ends_with (lower s) (lower suf).
Proof. intros [pre ->]. exists (lower pre). apply lower_app. Qed.

(** Whatever has the base name of a name that ends with ".zip" is
    excluded. *)
Lemma same_basename_excluded name path :
  ends_with name ".zip" ->
  basename path = basename name ->
  should_exclude_file path = true.
Proof.
  intros Hz Hb. apply should_exclude_file_true. left. rewrite Hb.
  apply (ends_with_lower _ ".zip"), basename_ends_with; [reflexivity | exact Hz].
Qed.

Section Walk.

Variable zip_open : string -> option string.
Variable zip_write : list member -> string -> option string.
Variable zip_close : list member -> option string.
Variable getsize : string -> option string.
Variable exclude_hidden : bool.
Variable verbose : bool.

Abbreviation add_dir := (add_dir zip_write exclude_hidden verbose).
Abbreviation add_dirs := (add_dirs zip_write exclude_hidden verbose).
Abbreviation add_file := (add_file zip_write exclude_hidden verbose).
Abbreviation add_files := (add_files zip_write exclude_hidden verbose).
Abbreviation visit := (visit zip_write exclude_hidden verbose).
Abbreviation walk := (walk zip_write exclude_hidden verbose).
Abbreviation create_directory_zip :=
  (create_directory_zip zip_open zip_write zip_close getsize
     exclude_hidden verbose).
Abbreviation main :=
  (main zip_open zip_write zip_close getsize exclude_hidden verbose).

(** Messages change neither the members nor the counters. *)
Lemma members_say_if b line st : members (say_if b line st) = members st.
Proof. destruct b; reflexivity. Qed.

Lemma add_dir_pass root st d : files_pass st -> flow_pass (add_dir root st d).
Proof.
  intros H. unfold Zip.add_dir.
  destruct (exclude_hidden && startswith d "."); simpl.
  - intros p. rewrite members_say_if. apply H.
  - destruct (zip_write (members st) (join root d)); simpl; [exact H|].
    intros p. rewrite members_say_if. simpl. rewrite in_app_iff.
    intros [Hin | [Heq | []]]; [now apply H | discriminate].
Qed.

Lemma add_dirs_pass root dirs :
  forall st, files_pass st -> flow_pass (add_dirs root st dirs).
Proof.
  induction dirs as [|d dirs IH]; intros st H; simpl; [exact H|].
  pose proof (add_dir_pass root st d H) as Hd.
  destruct (add_dir root st d); simpl in *; [now apply IH | exact Hd].
Qed.

Lemma add_file_pass root st f : files_pass st -> files_pass (add_file root st f).
Proof.
  intros H. unfold Zip.add_file.
  destruct (should_exclude_file (join root f)) eqn:Ex.
  - intros p. rewrite members_say_if. apply H.
  - destruct (exclude_hidden && startswith f ".").
    + intros p. rewrite members_say_if. apply H.
    + destruct (zip_write (members st) (join root f)); [exact H|].
      intros p. rewrite members_say_if. simpl. rewrite in_app_iff.
      intros [Hin | [Heq | []]]; [now apply H | congruence].
Qed.

Lemma add_files_pass root files :
  forall st, files_pass st -> files_pass (add_files root st files).
Proof.
  unfold Zip.add_files.
  induction files as [|f files IH]; intros st H; simpl; [exact H|].
  apply IH, add_file_pass, H.
Qed.

Lemma visit_pass st item : files_pass st -> flow_pass (visit st item).
Proof.
  intros H. destruct item as [[root dirs] files]. unfold Zip.visit.
  pose proof (add_dirs_pass root dirs st H) as Hd.
  destruct (add_dirs root st dirs); simpl in *; [|exact Hd].
  now apply add_files_pass.
Qed.

Lemma walk_pass items :
  forall st, files_pass st -> flow_pass (walk st items).
Proof.
  induction items as [|item items IH]; intros st H; simpl; [exact H|].
  pose proof (visit_pass st item H) as Hv.
  destruct (visit st item); simpl in *; [now apply IH | exact Hv].
Qed.

Lemma create_directory_zip_pass timestamp output top :
  files_pass (snd (create_directory_zip timestamp output top)).
Proof.
  assert (files_pass start) as H0 by (intros p []).
  pose proof (walk_pass (os_walk top) start H0) as Hw.
  unfold Zip.create_directory_zip, failure.
  destruct (zip_open (archive_name timestamp output)); [exact H0|].
  destruct (walk start (os_walk top)) as [st|st msg]; cbn [flow_pass] in Hw.
  - destruct (zip_close (members st)); [exact Hw|].
    destruct (getsize (archive_name timestamp output)); exact Hw.
  - destruct (zip_close (members st)); exact Hw.
Qed.

(** C10. The archive is created under a name that ends with ".zip";
    every path with the base name of that name is excluded by the
    predicate; so no file stored in the archive has that base name,
    wherever the archive lies in the walked tree. *)
Theorem archive_never_contains_itself timestamp output top :
  let name := archive_name timestamp output in
  let st := snd (create_directory_zip timestamp output top) in
  ends_with name ".zip"
  /\ (forall path, basename path = basename name ->
                   should_exclude_file path = true)
  /\ (forall path, In (Member path) (members st) ->
                   should_exclude_file path = false
                   /\ ~ ends_with (lower (basename path)) ".zip"
                   /\ basename path <> basename name).
Proof.
  intros name st.
  pose proof (archive_name_ends_with timestamp output) as Hz.
  split; [exact Hz|]. split.
  - intros path. now apply same_basename_excluded.
  - intros path Hin.
    pose proof (create_directory_zip_pass timestamp output top path Hin) as Hp.
    split; [exact Hp|]. split.
    + intros Hl.
      assert (should_exclude_file path = true) as Ht
          by (apply should_exclude_file_true; now left).
      congruence.
    + intros Hb.
      pose proof (same_basename_excluded name path Hz Hb). congruence.
Qed.

(** *** Failures *)

Lemma add_dirs_going root dirs :
  (forall ms d, In d dirs -> zip_write ms (join root d) = None) ->
  forall st, exists st', add_dirs root st dirs = Going st'.
Proof.
  induction dirs as [|d dirs IH]; intros H st; simpl; [now exists st|].
  unfold Zip.add_dir.
  destruct (exclude_hidden && startswith d ".").
  - apply IH. intros ms d' Hd. apply H. now right.
  - rewrite H by now left. apply IH. intros ms d' Hd. apply H. now right.
Qed.

Lemma walk_going items :
  (forall ms p, In p (folder_paths items) -> zip_write ms p = None) ->
  forall st, exists st', walk st items = Going st'.
Proof.
  induction items as [|[[root dirs] files] items IH]; intros H st; simpl;
    [now exists st|].
  destruct (add_dirs_going root dirs) with (st := st) as [st1 ->].
  - intros ms d Hd. apply H. simpl. apply in_or_app. left.
    now apply in_map.
  - apply IH. intros ms p Hp. apply H. simpl. apply in_or_app. now right.
Qed.

(** C9. A write of a file that fails leaves a warning on the output, adds
    nothing to the archive or to the count of added files, and the loop
    goes on with the next file; when the archive opens and closes and
    the folders are written, the call returns [True] whatever writes of
    files failed.  When the archive cannot be opened the call returns
    [False] and the process ends with status 1. *)
Theorem file_failure_warns_open_failure_is_fatal timestamp output response top :
  (forall root st file_name msg,
      should_exclude_file (join root file_name) = false ->
      exclude_hidden && startswith file_name "." = false ->
      zip_write (members st) (join root file_name) = Some msg ->
      add_file root st file_name
      = say ("Warning: Could not add " ++ join root file_name ++ ": " ++ msg) st
      /\ files_added (add_file root st file_name) = files_added st
      /\ members (add_file root st file_name) = members st
      /\ forall rest,
          add_files root st (file_name :: rest)
          = add_files root (add_file root st file_name) rest)
  /\ (zip_open (archive_name timestamp output) = None ->
      (forall ms p, In p (folder_paths (os_walk top)) -> zip_write ms p = None) ->
      (forall ms, zip_close ms = None) ->
      getsize (archive_name timestamp output) = None ->
      fst (create_directory_zip timestamp output top) = Ret true
      /\ main timestamp output "y" top = 0)
  /\ (forall msg,
      zip_open (archive_name timestamp output) = Some msg ->
      create_directory_zip timestamp output top
      = (Ret false, say ("Error creating zip file: " ++ msg) start)
      /\ (verbose = true \/ confirmed response = true ->
          main timestamp output response top = 1)).
Proof.
  split; [|split].
  - intros root st file_name msg Hex Hhid Hw.
    assert (add_file root st file_name
            = say ("Warning: Could not add " ++ join root file_name ++ ": " ++ msg) st)
      as E by (unfold Zip.add_file; now rewrite Hex, Hhid, Hw).
    rewrite E. repeat split; try reflexivity.
    intros rest. unfold Zip.add_files. simpl. now rewrite E.
  - intros Hopen Hfold Hclose Hsize.
    assert (fst (create_directory_zip timestamp output top) = Ret true) as E.
    { unfold Zip.create_directory_zip. rewrite Hopen.
      destruct (walk_going (os_walk top) Hfold start) as [st ->].
      now rewrite Hclose, Hsize. }
    split; [exact E|]. unfold Zip.main. rewrite E.
    destruct verbose; reflexivity.
  - intros msg Hopen.
    assert (create_directory_zip timestamp output top
            = (Ret false, say ("Error creating zip file: " ++ msg) start)) as E
        by (unfold Zip.create_directory_zip; now rewrite Hopen).
    split; [exact E|]. intros Hgo. unfold Zip.main. rewrite E. simpl.
    destruct Hgo as [-> | ->]; [reflexivity|].
    now rewrite andb_false_r.
Qed.

End Walk.

(** A working directory with three files, where the write of the second
    one fails ("Permission denied"); an archive that cannot be opened. *)
Definition three_files : list tree := [File "a.txt"; File "b.txt"; File "c.txt"].

Definition second_write_fails (ms : list member) (path : string) : option string :=
  if String.eqb path "./b.txt" then Some "Permission denied" else None.

Definition always_ok {A : Type} (_ : A) : option string := None.

Definition never_opens (_ : string) : option string := Some "Read-only file system".

Lemma file_failure_warns_witness :
  Zip.create_directory_zip always_ok second_write_fails always_ok always_ok
    true false "20240101_120000" None three_files
  = (Ret true,
     {| members := [Member "./a.txt"; Member "./c.txt"];
        files_added := 2; folders_added := 0; files_skipped := 0;
        stdout := ["Warning: Could not add ./b.txt: Permission denied"] |})
  /\ Zip.add_file second_write_fails true false "." start "b.txt"
     = say "Warning: Could not add ./b.txt: Permission denied" start
  /\ fst (Zip.create_directory_zip always_ok second_write_fails always_ok
            always_ok true false "20240101_120000" None three_files) = Ret true
  /\ Zip.main never_opens second_write_fails always_ok always_ok true false
       "20240101_120000" None "yes" three_files = 1.
Proof.
  split; [reflexivity|].
  pose proof (file_failure_warns_open_failure_is_fatal always_ok
                second_write_fails always_ok always_ok true false
                "20240101_120000" None "yes" three_files) as [A [B _]].
  pose proof (file_failure_warns_open_failure_is_fatal never_opens
                second_write_fails always_ok always_ok true false
                "20240101_120000" None "yes" three_files) as [_ [_ C]].
  split; [|split].
  - apply (A "." start "b.txt" "Permission denied"); reflexivity.
  - apply B; try reflexivity. intros ms p [].
  - apply (C "Read-only file system"); [reflexivity | now right].
Defined.

(** C6, on the code: with hidden entries excluded, the hidden directory
    ".git" is not stored itself, but the walk still enters it and the file
    "config" below it is stored in the archive. *)
Theorem hidden_directory_content_is_archived :
  let top := [Dir ".git" [File "config"; Dir "objects" []]; File "main.py"] in
  os_walk top
  = [(".", [".git"], ["main.py"]);
     ("./.git", ["objects"], ["config"]);
     ("./.git/objects", [], [])]
  /\ Zip.create_directory_zip always_ok (fun _ => always_ok) always_ok always_ok
       true true "20240101_120000" None top
     = (Ret true,
        {| members := [Member "./main.py"; Folder "./.git/objects";
                       Member "./.git/config"];
           files_added := 2; folders_added := 1; files_skipped := 0;
           stdout := ["Skipped (hidden): ./.git"; "Added: ./main.py";
                      "Added folder: ./.git/objects";
                      "Added: ./.git/config"] |}).
Proof. split; reflexivity. Qed.

(** C10 on a working directory that shows the archive being written, asked
    for under the name "backup": it is counted as skipped and not stored. *)
Example archive_in_the_tree_is_skipped :
  archive_name "20240101_120000" (Some "backup") = "backup.zip"
  /\ Zip.create_directory_zip always_ok (fun _ => always_ok) always_ok always_ok
       true true "20240101_120000" (Some "backup")
       [File "backup.zip"; File "a.txt"]
     = (Ret true,
        {| members := [Member "./a.txt"];
           files_added := 1; folders_added := 0; files_skipped := 1;
           stdout := ["Skipped (zip file): ./backup.zip"; "Added: ./a.txt"] |}).
Proof. split; reflexivity. Qed.

End ZipFacts.

(** ** The extractor *)

Module MapsFacts.
Import PyStr PyStrFacts Maps.

(** *** Phone cleaning *)

Lemma digit_or_plus_true c :
  digit_or_plus c = true <->
  (48 <= nat_of_ascii c <= 57)%nat \/ c = "+"%char.
Proof.
  unfold digit_or_plus, is_digit.
  rewrite orb_true_iff, andb_true_iff, !Nat.leb_le. 
  destruct (Ascii.eqb_spec c "+"); intuition congruence.
Qed.




(** *** The detail parse *)

Lemma later_refl st : later st st.
Proof. exists []. now rewrite app_nil_r. Qed.

Lemma later_trans st1 st2 st3 : later st1 st2 -> later st2 st3 -> later st1 st3.
Proof.
  intros [m1 E1] [m2 E2]. exists (m1 ++ m2)%list. now rewrite E2, E1, app_assoc.
Qed.

Lemma later_asked sel st : later st (asked sel st).
Proof. now exists [sel]. Qed.

Lemma later_In sel st st' :
  later st st' -> In sel (queries st) -> In sel (queries st').
Proof. intros [more ->] H. apply in_or_app. now left. Qed.

Lemma In_asked sel st : In sel (queries (asked sel st)).
Proof. simpl. apply in_or_app. right. now left. Qed.

Lemma growing_ret {A : Type} (a : A) : growing (ret a).
Proof. intros st. apply later_refl. Qed.

Lemma growing_raise {A : Type} msg : growing (@raise parse A msg).
Proof. intros st. apply later_refl. Qed.

Lemma growing_lift {A : Type} (r : outcome A) : growing (lift r).
Proof. intros st. apply later_refl. Qed.

Lemma growing_assign f : growing (assign f).
Proof. intros st. exists []. simpl. now rewrite app_nil_r. Qed.

Lemma growing_current : growing current.
Proof. intros st. apply later_refl. Qed.

Lemma growing_bind {A B : Type} (m : parser A) (k : A -> parser B) :
  growing m -> (forall a, growing (k a)) -> growing (bind m k).
Proof.
  intros Hm Hk st. unfold bind. specialize (Hm st).
  destruct (m st) as [st' [a|msg]]; simpl in *; [|exact Hm].
  eapply later_trans; [exact Hm | apply Hk].
Qed.

Lemma growing_try_pass m : growing m -> growing (try_pass m).
Proof.
  intros Hm st. unfold try_pass. specialize (Hm st).
  now destruct (m st).
Qed.

Lemma guarded_try_pass m : growing m -> guarded (try_pass m).
Proof.
  intros Hm st. unfold try_pass. specialize (Hm st).
  destruct (m st) as [st' r]. now exists st'.
Qed.

Lemma guarded_ret : guarded (ret tt).
Proof. intros st. exists st. split; [reflexivity | apply later_refl]. Qed.

Lemma guarded_bind (m k : parser unit) :
  guarded m -> guarded k -> guarded (bind m (fun _ => k)).
Proof.
  intros Hm Hk st. unfold bind. destruct (Hm st) as [st1 [-> L1]].
  destruct (Hk st1) as [st2 [-> L2]]. exists st2.
  split; [reflexivity | eapply later_trans; eassumption].
Qed.

Create HintDb parse.
#[local] Hint Resolve growing_ret growing_raise growing_lift growing_assign
  growing_current growing_try_pass : parse.

(** Splits a computation along its binds and its tests. *)
Ltac grow :=
  repeat first
    [ progress auto with parse
    | progress cbv beta zeta
    | apply growing_bind; [|intros ?]
    | match goal with
      | |- growing (if ?b then _ else _) => destruct b
      | |- growing (match ?x with _ => _ end) => destruct x
      end ].

Section ParserFacts.

Variable re_findall : string -> string -> list string.
Variable driver : Panel.

Lemma growing_find_element sel : growing (driver_find_element driver sel).
Proof. intros st. apply later_asked. Qed.

Lemma growing_find_elements sel : growing (driver_find_elements driver sel).
Proof. intros st. apply later_asked. Qed.

Hint Resolve growing_find_element growing_find_elements : parse.

Lemma growing_label_or_text el : growing (label_or_text el).
Proof. unfold label_or_text. grow. Qed.

Lemma growing_after_colon a : growing (after_colon a).
Proof. unfold after_colon. grow. Qed.

Hint Resolve growing_label_or_text growing_after_colon : parse.

(** A block that starts with a query asks it, whatever comes of it. *)
Lemma try_pass_asks sel (k : WebElement -> parser unit) st :
  (forall el, growing (k el)) ->
  In sel (queries (fst (try_pass (bind (driver_find_element driver sel) k) st))).
Proof.
  intros Hk. unfold try_pass, bind, driver_find_element.
  destruct (find_element driver sel) as [el|msg]; [|apply In_asked].
  specialize (Hk el (asked sel st)).
  destruct (k el (asked sel st)) as [st' r]. simpl in *.
  eapply later_In; [exact Hk | apply In_asked].
Qed.

Lemma extract_name_guarded selectors :
  guarded (extract_name driver selectors).
Proof.
  induction selectors as [|sel selectors IH]; intros st; simpl.
  - exists st. split; [reflexivity | apply later_refl].
  - match goal with
    | |- context [let (_, _) := ?m st in _] =>
        assert (growing m) as G by (unfold growing; grow); specialize (G st);
        destruct (m st) as [st1 [[|]|msg]]
    end; simpl in G.
    + now exists st1.
    + destruct (IH st1) as [st2 [-> L]]. exists st2.
      split; [reflexivity | eapply later_trans; eassumption].
    + destruct (IH st1) as [st2 [-> L]]. exists st2.
      split; [reflexivity | eapply later_trans; eassumption].
Qed.

(** The first selector for the name is always asked. *)
Lemma extract_name_asks sel selectors st :
  In sel (queries (fst (extract_name driver (sel :: selectors) st))).
Proof.
  simpl.
  match goal with
  | |- context [let (_, _) := ?m st in _] =>
      assert (In sel (queries (fst (m st)))) as Q;
      [| destruct (m st) as [st1 [[|]|msg]]; simpl in Q ]
  end.
  - unfold bind at 1, driver_find_element.
    destruct (find_element driver sel) as [el|msg]; [|apply In_asked].
    match goal with
    | |- context [fst (?k (asked sel st))] =>
        assert (growing k) as G by (unfold growing; grow);
        specialize (G (asked sel st))
    end.
    eapply later_In; [exact G | apply In_asked].
  - exact Q.
  - destruct (extract_name_guarded selectors st1) as [st2 [-> L]].
    eapply later_In; [exact L | exact Q].
  - destruct (extract_name_guarded selectors st1) as [st2 [-> L]].
    eapply later_In; [exact L | exact Q].
Qed.

Lemma extract_category_guarded : guarded (extract_category driver).
Proof. apply guarded_try_pass. grow. Qed.

Lemma extract_info_guarded button : guarded (extract_info re_findall button).
Proof. apply guarded_try_pass. grow. Qed.

Lemma extract_infos_guarded buttons :
  guarded (extract_infos re_findall buttons).
Proof.
  induction buttons as [|b buttons IH]; simpl.
  - apply guarded_ret.
  - apply guarded_bind; [apply extract_info_guarded | exact IH].
Qed.

Lemma extract_tel_link_guarded : guarded (extract_tel_link driver).
Proof.
  intros st. unfold extract_tel_link, bind at 1, current. cbv beta iota.
  destruct (negb (truthy_opt (phone (record st)))).
  - refine (guarded_try_pass _ _ st). grow.
  - exact (guarded_ret st).
Qed.

Lemma extract_rating_and_reviews_guarded :
  guarded (extract_rating_and_reviews driver).
Proof. apply guarded_try_pass. grow. Qed.

Lemma extract_hours_guarded : guarded (extract_hours driver).
Proof. apply guarded_try_pass. grow. Qed.

Lemma extract_price_guarded : guarded (extract_price driver).
Proof. apply guarded_try_pass. grow. Qed.

Lemma extract_email_guarded : guarded (extract_email re_findall driver).
Proof. apply guarded_try_pass. grow. Qed.

Lemma extract_category_asks st :
  In category_selector (queries (fst (extract_category driver st))).
Proof. apply try_pass_asks. intros el. grow. Qed.

Lemma extract_rating_asks st :
  In rating_selector (queries (fst (extract_rating_and_reviews driver st))).
Proof. apply try_pass_asks. intros el. grow. Qed.

Lemma extract_hours_asks st :
  In hours_selector (queries (fst (extract_hours driver st))).
Proof. apply try_pass_asks. intros el. grow. Qed.

Lemma extract_price_asks st :
  In price_selector (queries (fst (extract_price driver st))).
Proof. apply try_pass_asks. intros el. grow. Qed.

Lemma extract_email_asks st :
  In main_selector (queries (fst (extract_email re_findall driver st))).
Proof. apply try_pass_asks. intros el. grow. Qed.

(** Runs one guarded block inside a chain of binds. *)
Ltac run_block G Q :=
  unfold bind at 1;
  match goal with
  | |- context [let (_, _) := ?m ?st in _] =>
      let st' := fresh "st" in
      let E := fresh "E" in
      let L := fresh "L" in
      pose proof (Q st) as ?;
      destruct (G st) as [st' [E L]]; rewrite E in *; cbv beta iota
  end.

Lemma extract_fields_asks :
  exists st,
  fst (extract_fields re_findall driver new_parse) = st /\
  In "h1.DUwDvf.fontHeadlineLarge" (queries st)
  /\ In category_selector (queries st)
  /\ In info_selector (queries st)
  /\ (forall buttons,
        find_elements driver info_selector = Ret buttons ->
        In rating_selector (queries st)
        /\ In hours_selector (queries st)
        /\ In price_selector (queries st)
        /\ In main_selector (queries st)).
Proof.
  unfold extract_fields, name_selectors.
  run_block (extract_name_guarded
               ["h1.DUwDvf.fontHeadlineLarge";
                "h1[class*=" ++ dq ++ "fontHeadlineLarge" ++ dq ++ "]";
                "h1.DUwDvf"; "[role=" ++ dq ++ "main" ++ dq ++ "] h1"])
            (extract_name_asks "h1.DUwDvf.fontHeadlineLarge"
               ["h1[class*=" ++ dq ++ "fontHeadlineLarge" ++ dq ++ "]";
                "h1.DUwDvf"; "[role=" ++ dq ++ "main" ++ dq ++ "] h1"]).
  run_block extract_category_guarded extract_category_asks.
  unfold bind at 1, driver_find_elements at 1.
  assert (later st0 (asked info_selector st0)) as L1 by apply later_asked.
  pose proof (In_asked info_selector st0) as Hinfo.
  set (st1 := asked info_selector st0) in *. clearbody st1.
  destruct (find_elements driver info_selector) as [buttons|msg].
  - run_block (extract_infos_guarded buttons) (fun st : parse => I).
    run_block extract_tel_link_guarded (fun st : parse => I).
    run_block extract_rating_and_reviews_guarded extract_rating_asks.
    run_block extract_hours_guarded extract_hours_asks.
    run_block extract_price_guarded extract_price_asks.
    pose proof (extract_email_asks st6) as Hmail.
    destruct (extract_email_guarded st6) as [st7 [E7 L7]].
    rewrite E7 in *. simpl in *.
    assert (later st1 st7) as L17
        by (repeat (eapply later_trans; [eassumption|]); apply later_refl).
    assert (later st0 st7) as L07 by (eapply later_trans; eassumption).
    assert (later st st7) as Ls7 by (eapply later_trans; eassumption).
    exists st7. split; [reflexivity|].
    repeat split; try (intros; repeat split);
      eauto 10 using later_In, later_trans.
  - simpl in *.
    assert (later st st1) as Ls1 by (eapply later_trans; eassumption).
    exists st1. split; [reflexivity|].
    repeat split; try discriminate;
      eauto 10 using later_In, later_trans.
Qed.


End ParserFacts.



(** *** The helper methods *)

Lemma attempt_returns {S A : Type} (m handler : computation S A) :
  returns handler -> returns (attempt m handler).
Proof.
  intros H st. unfold attempt.
  destruct (m st) as [st' [a|msg]]; [now exists a | apply H].
Qed.

Lemma ret_returns {S A : Type} (a : A) : returns (@ret S A a).
Proof. intros st. now exists a. Qed.

Section HelperFacts.

Variable D : Type.
Variable Feed : Type.
Variable Link : Type.
Variable find_feed : computation D Feed.
Variable find_listings : Feed -> computation D (list Link).
Variable scroll_into_view : Link -> computation D unit.
Variable click_link : Link -> computation D unit.
Variable scroll_to_bottom : Feed -> computation D unit.

(** The helper methods never raise, whatever the driver does. *)
Lemma helpers_return :
  returns (get_total_results_count D Feed Link find_feed find_listings)
  /\ (forall index,
        returns (click_listing_by_index D Feed Link find_feed find_listings
                   scroll_into_view click_link index))
  /\ returns (scroll_results_panel D Feed Link find_feed find_listings
                scroll_to_bottom)
  /\ (forall re_findall panel, returns (parse_panel D re_findall panel)).
Proof.
  repeat split; try intros index; try apply attempt_returns, ret_returns.
  intros panel st. unfold parse_panel, extract_listing_details_from_panel.
  destruct (extract_fields index (panel st) new_parse) as [st' [u|msg]];
    now eexists.
Qed.

(** The count is 0 when the feed cannot be read. *)
Lemma get_total_results_count_unreadable d d' msg :
  find_feed d = (d', Raise msg) ->
  get_total_results_count D Feed Link find_feed find_listings d = (d', Ret 0).
Proof.
  intros H. unfold get_total_results_count, attempt, bind. now rewrite H.
Qed.

End HelperFacts.

(** *** The extraction loop *)

Lemma named_true d :
  named d = true <-> exists n, name d = Some n /\ n <> "".
Proof.
  unfold named, truthy_opt, truthy. destruct (name d) as [n|].
  - destruct (String.eqb_spec n ""); simpl; split.
    + discriminate.
    + intros [m [Hm Hne]]. congruence.
    + intros _. now exists n.
    + reflexivity.
  - split; [discriminate | intros [n [Hn _]]; discriminate].
Qed.

Section LoopFacts.

Variable W : Type.
Variable stop_extraction : W -> W * bool.
Variable get_total_results_count : W -> W * outcome nat.
Variable click_listing_by_index : nat -> W -> W * outcome bool.
Variable extract_listing_details_from_panel : W -> W * outcome details.
Variable scroll_results_panel : W -> W * outcome bool.

Abbreviation session := (session W).
Abbreviation read_stop := (read_stop W stop_extraction).
Abbreviation count := (count W get_total_results_count).
Abbreviation click := (click W click_listing_by_index).
Abbreviation extract := (extract W extract_listing_details_from_panel).
Abbreviation scroll := (scroll W scroll_results_panel).
Abbreviation try_listing :=
  (try_listing W click_listing_by_index extract_listing_details_from_panel).
Abbreviation scroll_after_failures :=
  (scroll_after_failures W scroll_results_panel).
Abbreviation visit :=
  (visit W stop_extraction click_listing_by_index
     extract_listing_details_from_panel scroll_results_panel).
Abbreviation scan :=
  (scan W stop_extraction click_listing_by_index
     extract_listing_details_from_panel scroll_results_panel).
Abbreviation load_more := (load_more W scroll_results_panel).
Abbreviation round :=
  (round W stop_extraction get_total_results_count click_listing_by_index
     extract_listing_details_from_panel scroll_results_panel).
Abbreviation extract_loop :=
  (extract_loop W stop_extraction get_total_results_count
     click_listing_by_index extract_listing_details_from_panel
     scroll_results_panel).
Abbreviation extract_all_results :=
  (extract_all_results W stop_extraction get_total_results_count
     click_listing_by_index extract_listing_details_from_panel
     scroll_results_panel).

(** **** The results only grow, by named records *)

Lemma appended_refl (s : session) : appended s s.
Proof. exists []. split; [now rewrite app_nil_r | constructor]. Qed.

Lemma appended_same (s s' : session) :
  results s' = results s -> appended s s'.
Proof. intros H. exists []. split; [now rewrite app_nil_r | constructor]. Qed.

Lemma appended_trans (s1 s2 s3 : session) :
  appended s1 s2 -> appended s2 s3 -> appended s1 s3.
Proof.
  intros [n1 [E1 F1]] [n2 [E2 F2]]. exists (n1 ++ n2)%list. split.
  - now rewrite E2, E1, app_assoc.
  - now apply Forall_app.
Qed.

Lemma results_read_stop s : results (fst (read_stop s)) = results s.
Proof. unfold Maps.read_stop. now destruct (stop_extraction (page s)). Qed.

Lemma results_count s : results (fst (count s)) = results s.
Proof. unfold Maps.count. now destruct (get_total_results_count (page s)). Qed.

Lemma results_click i s : results (fst (click i s)) = results s.
Proof. unfold Maps.click. now destruct (click_listing_by_index i (page s)). Qed.

Lemma results_extract s : results (fst (extract s)) = results s.
Proof.
  unfold Maps.extract.
  now destruct (extract_listing_details_from_panel (page s)).
Qed.

Lemma results_scroll s : results (fst (scroll s)) = results s.
Proof. unfold Maps.scroll. now destruct (scroll_results_panel (page s)). Qed.

Lemma results_scrolled grew (s : session) :
  results (scrolled grew s) = results s.
Proof. now destruct grew. Qed.

(** What one listing does to the results: the parsed record is appended
    when it has a name, and nothing changes otherwise. *)
Lemma results_try_listing i s :
  results (fst (try_listing i s)) =
  match click i s with
  | (s1, Ret true) =>
      match extract s1 with
      | (_, Ret d) => if named d then (results s ++ [d])%list else results s
      | (_, Raise _) => results s
      end
  | _ => results s
  end.
Proof.
  unfold Maps.try_listing.
  pose proof (results_click i s) as Hc.
  destruct (click i s) as [s1 [[|]|msg]]; simpl in Hc; simpl; try congruence.
  pose proof (results_extract s1) as He.
  destruct (extract s1) as [s2 [d|msg]]; simpl in He; simpl.
  - destruct (named d); simpl; congruence.
  - congruence.
Qed.

Lemma try_listing_appended i s : appended s (fst (try_listing i s)).
Proof.
  unfold Maps.appended. rewrite results_try_listing.
  destruct (click i s) as [s1 [[|]|msg]]; try apply appended_refl.
  destruct (extract s1) as [s2 [d|msg]]; try apply appended_refl.
  destruct (named d) eqn:Hd; [|apply appended_refl].
  exists [d]. split; [reflexivity | now constructor].
Qed.

Lemma results_scroll_after_failures s :
  results (fst (scroll_after_failures s)) = results s.
Proof.
  unfold Maps.scroll_after_failures.
  destruct (3 <? consecutive_failures s)%nat; [|reflexivity].
  pose proof (results_scroll s) as Hs.
  destruct (scroll s) as [s1 [grew|msg]]; simpl in *; [|exact Hs].
  now rewrite results_scrolled.
Qed.

Lemma visit_appended i s : appended s (fst (visit i s)).
Proof.
  unfold Maps.visit.
  pose proof (results_read_stop s) as Hr.
  destruct (read_stop s) as [s0 stop]; simpl in Hr.
  destruct stop; [now apply appended_same|].
  destruct (bool_decide _); [now apply appended_same|].
  pose proof (try_listing_appended i s0) as Ht.
  destruct (try_listing i s0) as [s1 c]; simpl in Ht.
  apply appended_trans with s0; [now apply appended_same|].
  destruct c; [|exact Ht].
  apply appended_trans with s1; [exact Ht|].
  apply appended_same, results_scroll_after_failures.
Qed.

Lemma scan_appended indices : forall s, appended s (scan indices s).
Proof.
  induction indices as [|i indices IH]; intros s; simpl.
  - apply appended_refl.
  - pose proof (visit_appended i s) as Hv.
    destruct (visit i s) as [s' c]; simpl in Hv.
    destruct c; [|exact Hv].
    apply appended_trans with s'; [exact Hv | apply IH].
Qed.

Lemma results_load_more s : results (fst (load_more s)) = results s.
Proof.
  unfold Maps.load_more.
  pose proof (results_scroll s) as Hs.
  destruct (scroll s) as [s1 [grew|msg]]; simpl in Hs.
  - destruct (3 <? _)%nat; simpl; now rewrite results_scrolled.
  - destruct (connection_lost msg); [exact Hs|].
    destruct (3 <? _)%nat; exact Hs.
Qed.

Lemma round_appended s : appended s (fst (round s)).
Proof.
  unfold Maps.round.
  pose proof (results_read_stop s) as Hr.
  destruct (read_stop s) as [s0 stop]; simpl in Hr.
  destruct stop; [now apply appended_same|].
  pose proof (results_count s0) as Hc.
  destruct (count s0) as [s1 [[|n]|msg]]; simpl in Hc;
    try (apply appended_same; simpl; congruence).
  apply appended_trans with s1; [apply appended_same; congruence|].
  apply appended_trans with (scan (seq 0 (S n)) s1); [apply scan_appended|].
  pose proof (results_read_stop (scan (seq 0 (S n)) s1)) as Hr2.
  destruct (read_stop (scan (seq 0 (S n)) s1)) as [s3 stop3]; simpl in Hr2.
  destruct stop3; [now apply appended_same|].
  apply appended_same. now rewrite results_load_more.
Qed.

Lemma extract_loop_appended fuel :
  forall s, appended s (fst (extract_loop fuel s)).
Proof.
  induction fuel as [|fuel IH]; intros s; simpl.
  - apply appended_refl.
  - pose proof (round_appended s) as Hr.
    destruct (round s) as [s' [why|]]; simpl in Hr; [exact Hr|].
    apply appended_trans with s'; [exact Hr | apply IH].
Qed.

(** C1. At every point where the loop may stand, and so in what
    [extract_all_results] returns, the results are those held at the
    call, unchanged and in place, followed by records that all have a
    name that is not empty; starting from no results, every result has
    such a name.  A listing that was opened and parsed adds its record
    exactly when the record has a name that is not empty. *)
Theorem results_all_named :
  (forall fuel found w,
      exists new,
        results (fst (extract_loop fuel (enter found w))) = (found ++ new)%list
        /\ Forall (fun d => exists n, name d = Some n /\ n <> "") new)
  /\ (forall fuel w rs,
         extract_all_results fuel [] w = Some rs ->
         Forall (fun d => exists n, name d = Some n /\ n <> "") rs)
  /\ (forall i s w1 w2 d,
         click_listing_by_index i (page s) = (w1, Ret true) ->
         extract_listing_details_from_panel w1 = (w2, Ret d) ->
         ((exists n, name d = Some n /\ n <> "") ->
          results (fst (try_listing i s)) = (results s ++ [d])%list)
         /\ (~ (exists n, name d = Some n /\ n <> "") ->
             results (fst (try_listing i s)) = results s)).
Proof.
  assert (forall fuel found w,
      exists new,
        results (fst (extract_loop fuel (enter found w))) = (found ++ new)%list
        /\ Forall (fun d => exists n, name d = Some n /\ n <> "") new) as H.
  { intros fuel found w.
    destruct (extract_loop_appended fuel (enter found w)) as [new [E F]].
    exists new. split; [exact E|].
    eapply List.Forall_impl; [|exact F]. intros d. apply named_true. }
  split; [exact H|]. split.
  - intros fuel w rs. unfold Maps.extract_all_results.
    destruct (H fuel [] w) as [new [E F]].
    destruct (extract_loop fuel (enter [] w)) as [s [why|]];
      [|discriminate].
    intros [= <-]. simpl in E. now rewrite E.
  - intros i s w1 w2 d Hc He.
    rewrite results_try_listing. unfold Maps.click, Maps.extract.
    rewrite Hc. simpl. rewrite He. rewrite <- named_true.
    destruct (named d); split; intros; congruence.
Qed.

(** With helper methods that never raise, as those of the class, the
    [except] of a listing is never entered and no listing leaves the scan. *)
Lemma try_listing_goes_on i s :
  (forall w, exists b, snd (click_listing_by_index i w) = Ret b) ->
  (forall w, exists d, snd (extract_listing_details_from_panel w) = Ret d) ->
  snd (try_listing i s) = Next.
Proof.
  intros Hc He. unfold Maps.try_listing, Maps.click, Maps.extract.
  destruct (Hc (page s)) as [b Hb].
  destruct (click_listing_by_index i (page s)) as [w1 r]. simpl in Hb. subst r.
  destruct b; [|reflexivity]. cbn [page on_page].
  destruct (He w1) as [d Hd].
  destruct (extract_listing_details_from_panel w1) as [w2 r]. simpl in Hd.
  subst r. now destruct (named d).
Qed.

(** **** Streaks of failures *)

Lemma scrolls_app l c :
  scrolls (l ++ [c]) = scrolls l + (if is_scroll c then 1 else 0).
Proof.
  unfold scrolls. rewrite List.filter_app, List.length_app. simpl.
  now destruct (is_scroll c).
Qed.

Lemma clicks_app l c :
  clicks (l ++ [c]) = clicks l + (if is_click c then 1 else 0).
Proof.
  unfold clicks. rewrite List.filter_app, List.length_app. simpl.
  now destruct (is_click c).
Qed.

(** A failed attempt counts one failure and one click, and nothing
    else. *)
Lemma try_listing_fails i s :
  listing_fails W click_listing_by_index extract_listing_details_from_panel
    i (page s) ->
  exists s',
    try_listing i s = (s', Next)
    /\ consecutive_failures s' = S (consecutive_failures s)
    /\ processed_indices s' = processed_indices s
    /\ no_new_results_count s' = no_new_results_count s
    /\ results s' = results s
    /\ scrolls (calls s') = scrolls (calls s)
    /\ clicks (calls s') = S (clicks (calls s)).
Proof.
  unfold listing_fails, Maps.try_listing, Maps.click, Maps.extract,
    listing_error.
  destruct (click_listing_by_index i (page s)) as [w1 [[|]|msg]]; simpl.
  - destruct (extract_listing_details_from_panel w1) as [w2 [d|msg]];
      simpl; intros ->; eexists; (split; [reflexivity|]); simpl;
      rewrite !scrolls_app, !clicks_app; simpl; repeat split; lia.
  - intros _. eexists. split; [reflexivity|]. simpl.
    rewrite !scrolls_app, !clicks_app; simpl; repeat split; lia.
  - intros ->. eexists. split; [reflexivity|]. simpl.
    rewrite !scrolls_app, !clicks_app; simpl; repeat split; lia.
Qed.

Section Streak.

Hypothesis never_stopped : forall w, snd (stop_extraction w) = false.
Hypothesis all_fail :
  forall i w,
    listing_fails W click_listing_by_index
      extract_listing_details_from_panel i w.
Hypothesis scroll_returns :
  forall w, exists grew, snd (scroll_results_panel w) = Ret grew.

Lemma visit_fails i s :
  i ∉ processed_indices s ->
  consecutive_failures s <= 3 ->
  exists s',
    visit i s = (s', Next)
    /\ processed_indices s' = processed_indices s
    /\ results s' = results s
    /\ clicks (calls s') = S (clicks (calls s))
    /\ (consecutive_failures s < 3 ->
        consecutive_failures s' = S (consecutive_failures s)
        /\ scrolls (calls s') = scrolls (calls s))
    /\ (consecutive_failures s = 3 ->
        consecutive_failures s' = 0
        /\ scrolls (calls s') = S (scrolls (calls s))).
Proof.
  intros Hi Hcf. unfold Maps.visit, Maps.read_stop.
  pose proof (never_stopped (page s)) as Hs.
  destruct (stop_extraction (page s)) as [w0 stop]. simpl in Hs. subst stop.
  cbn [processed_indices on_page].
  rewrite bool_decide_eq_false_2 by exact Hi.
  destruct (try_listing_fails i (on_page ReadStop w0 s) (all_fail i _))
    as [s1 [-> [Hc1 [Hp1 [Hn1 [Hr1 [Hs1 Hk1]]]]]]].
  simpl in Hc1, Hp1, Hn1, Hr1, Hs1, Hk1.
  rewrite scrolls_app in Hs1. rewrite clicks_app in Hk1. simpl in Hs1, Hk1.
  unfold Maps.scroll_after_failures.
  destruct (Nat.ltb_spec 3 (consecutive_failures s1)) as [Hlt|Hge].
  - unfold Maps.scroll.
    destruct (scroll_returns (page s1)) as [grew Hg].
    destruct (scroll_results_panel (page s1)) as [w2 r]. simpl in Hg. subst r.
    eexists. split; [reflexivity|].
    destruct grew; simpl; rewrite scrolls_app, clicks_app; simpl;
      repeat split; try congruence; try lia.
  - exists s1. split; [reflexivity|]. repeat split; try congruence; lia.
Qed.

Lemma scan_fails indices :
  forall s,
    (forall i, In i indices -> i ∉ processed_indices s) ->
    consecutive_failures s <= 3 ->
    scrolls (calls (scan indices s))
    = scrolls (calls s) + (consecutive_failures s + length indices) / 4
    /\ consecutive_failures (scan indices s)
       = (consecutive_failures s + length indices) mod 4
    /\ clicks (calls (scan indices s)) = clicks (calls s) + length indices.
Proof.
  induction indices as [|i indices IH]; intros s Hnot Hcf.
  - cbn [Maps.scan length].
    rewrite Nat.add_0_r, Nat.div_small, Nat.mod_small by lia. lia.
  - cbn [Maps.scan length].
    destruct (visit_fails i s) as [s' [-> [Hp [_ [Hk [Hlt Heq]]]]]];
      [apply Hnot; now left | exact Hcf |].
    assert (forall j, In j indices -> j ∉ processed_indices s') as Hnot'
        by (intros j Hj; rewrite Hp; apply Hnot; now right).
    destruct (Nat.eq_dec (consecutive_failures s) 3) as [E3|N3].
    + destruct (Heq E3) as [Hc' Hs'].
      destruct (IH s' Hnot' ltac:(lia)) as [IH1 [IH2 IH3]].
      rewrite IH1, IH2, IH3, Hc', Hs', Hk, E3.
      replace (3 + S (length indices)) with (length indices + 1 * 4) by lia.
      rewrite Nat.div_add, Nat.Div0.mod_add by lia.
      rewrite !Nat.add_0_l. repeat split; lia.
    + destruct (Hlt ltac:(lia)) as [Hc' Hs'].
      destruct (IH s' Hnot' ltac:(lia)) as [IH1 [IH2 IH3]].
      rewrite IH1, IH2, IH3, Hc', Hs', Hk.
      replace (S (consecutive_failures s) + length indices)
        with (consecutive_failures s + S (length indices)) by lia.
      repeat split; lia.
Qed.

End Streak.

(** C8, as the code has it.  While every attempt fails (without a lost
    browser, with the stop flag down and scrolls that return), a scan
    scrolls once at every fourth failure in a row and at no other time:
    from a streak of [k] failures, [n] more attempts make [(k + n) / 4]
    scrolls and leave a streak of [(k + n) mod 4], so each scroll resets
    the streak; and every one of the [n] listings is clicked, so the scan
    goes on after a scroll.  A listing that yields a named record resets
    the streak, and no scroll follows it. *)
Theorem failure_streak_of_four_scrolls :
  ((forall w, snd (stop_extraction w) = false) ->
   (forall i w,
       listing_fails W click_listing_by_index
         extract_listing_details_from_panel i w) ->
   (forall w, exists grew, snd (scroll_results_panel w) = Ret grew) ->
   forall indices s,
     (forall i, In i indices -> i ∉ processed_indices s) ->
     consecutive_failures s <= 3 ->
     scrolls (calls (scan indices s))
     = scrolls (calls s) + (consecutive_failures s + length indices) / 4
     /\ consecutive_failures (scan indices s)
        = (consecutive_failures s + length indices) mod 4
     /\ clicks (calls (scan indices s)) = clicks (calls s) + length indices)
  /\ (forall i s w0 w1 w2 d,
         stop_extraction (page s) = (w0, false) ->
         i ∉ processed_indices s ->
         click_listing_by_index i w0 = (w1, Ret true) ->
         extract_listing_details_from_panel w1 = (w2, Ret d) ->
         named d = true ->
         snd (visit i s) = Next
         /\ consecutive_failures (fst (visit i s)) = 0
         /\ scrolls (calls (fst (visit i s))) = scrolls (calls s)).
Proof.
  split.
  - intros Hstop Hfail Hscroll indices s. now apply scan_fails.
  - intros i s w0 w1 w2 d Hs Hi Hc He Hd.
    unfold Maps.visit, Maps.read_stop. rewrite Hs.
    cbn [processed_indices on_page].
    rewrite bool_decide_eq_false_2 by exact Hi.
    unfold Maps.try_listing, Maps.click. cbn [page on_page]. rewrite Hc.
    unfold Maps.extract. cbn [page on_page]. rewrite He, Hd.
    unfold Maps.scroll_after_failures. simpl.
    rewrite !scrolls_app. simpl. repeat split; lia.
Qed.

(** **** Termination *)

Section Bounded.

Variable budget : W -> nat.
Hypothesis stop_keeps :
  forall w, budget (fst (stop_extraction w)) <= budget w.
Hypothesis count_keeps :
  forall w, budget (fst (get_total_results_count w)) <= budget w.
Hypothesis click_keeps :
  forall i w, budget (fst (click_listing_by_index i w)) <= budget w.
Hypothesis extract_keeps :
  forall w, budget (fst (extract_listing_details_from_panel w)) <= budget w.
Hypothesis scroll_spends :
  forall w,
    match scroll_results_panel w with
    | (w', Ret true) => budget w' < budget w
    | (w', Ret false) => budget w' <= budget w
    | (w', Raise msg) =>
        if connection_lost msg then budget w' <= budget w
        else budget w' < budget w
    end.

Abbreviation progress := (progress budget).

Lemma progress_refl (s : session) : progress s s.
Proof. unfold Maps.progress. lia. Qed.

Lemma progress_trans (s1 s2 s3 : session) :
  progress s1 s2 -> progress s2 s3 -> progress s1 s3.
Proof. unfold Maps.progress. lia. Qed.

Lemma progress_read_stop s : progress s (fst (read_stop s)).
Proof.
  unfold Maps.read_stop, Maps.progress.
  pose proof (stop_keeps (page s)).
  destruct (stop_extraction (page s)); simpl in *. lia.
Qed.

Lemma progress_count s : progress s (fst (count s)).
Proof.
  unfold Maps.count, Maps.progress.
  pose proof (count_keeps (page s)).
  destruct (get_total_results_count (page s)); simpl in *. lia.
Qed.

Lemma progress_try_listing i s : progress s (fst (try_listing i s)).
Proof.
  unfold Maps.try_listing, Maps.click, Maps.extract, listing_error,
    Maps.progress.
  pose proof (click_keeps i (page s)) as Hc.
  destruct (click_listing_by_index i (page s)) as [w1 [[|]|msg]];
    simpl in *; try lia.
  pose proof (extract_keeps w1) as He.
  destruct (extract_listing_details_from_panel w1) as [w2 [d|msg]];
    simpl in *; [destruct (named d)|]; simpl; lia.
Qed.

Lemma progress_scroll_after_failures s :
  progress s (fst (scroll_after_failures s)).
Proof.
  unfold Maps.scroll_after_failures, Maps.scroll, Maps.progress.
  destruct (3 <? consecutive_failures s)%nat; simpl; [|lia].
  pose proof (scroll_spends (page s)) as Hs.
  destruct (scroll_results_panel (page s)) as [w1 [[|]|msg]]; simpl; try lia.
  destruct (connection_lost msg); simpl; lia.
Qed.

Lemma progress_visit i s : progress s (fst (visit i s)).
Proof.
  unfold Maps.visit.
  pose proof (progress_read_stop s) as Hr.
  destruct (read_stop s) as [s0 stop]; simpl in Hr.
  destruct stop; [exact Hr|].
  destruct (bool_decide _); [exact Hr|].
  pose proof (progress_try_listing i s0) as Ht.
  destruct (try_listing i s0) as [s1 c]; simpl in Ht.
  destruct c.
  - eapply progress_trans; [exact Hr|].
    eapply progress_trans; [exact Ht | apply progress_scroll_after_failures].
  - eapply progress_trans; [exact Hr | exact Ht].
Qed.

Lemma progress_scan indices : forall s, progress s (scan indices s).
Proof.
  induction indices as [|i indices IH]; intros s; simpl.
  - apply progress_refl.
  - pose proof (progress_visit i s) as Hv.
    destruct (visit i s) as [s' c]; simpl in Hv.
    destruct c; [|exact Hv].
    eapply progress_trans; [exact Hv | apply IH].
Qed.

(** A round that does not end the loop lowers the budget or raises
    the no-growth counter, which stays below its threshold. *)
Lemma load_more_next s s' :
  load_more s = (s', None) ->
  budget (page s') <= budget (page s)
  /\ (budget (page s') < budget (page s)
      \/ no_new_results_count s < no_new_results_count s')
  /\ no_new_results_count s' <= 3.
Proof.
  unfold Maps.load_more, Maps.scroll.
  pose proof (scroll_spends (page s)) as Hs.
  destruct (scroll_results_panel (page s)) as [w1 [[|]|msg]]; simpl.
  - intros [= <-]. simpl. lia.
  - destruct (Nat.ltb_spec 3 (S (no_new_results_count s))); [discriminate|].
    intros [= <-]. simpl. lia.
  - destruct (connection_lost msg); [discriminate|].
    destruct (Nat.ltb_spec 3 (no_new_results_count s)); [discriminate|].
    intros [= <-]. simpl. lia.
Qed.

Lemma round_next s s' :
  round s = (s', None) ->
  budget (page s') <= budget (page s)
  /\ (budget (page s') < budget (page s)
      \/ no_new_results_count s < no_new_results_count s')
  /\ no_new_results_count s' <= 3.
Proof.
  unfold Maps.round.
  pose proof (progress_read_stop s) as Hr.
  destruct (read_stop s) as [s0 stop]; simpl in Hr.
  destruct stop; [discriminate|].
  pose proof (progress_count s0) as Hc.
  destruct (count s0) as [s1 [[|n]|msg]]; simpl in Hc; try discriminate.
  pose proof (progress_scan (seq 0 (S n)) s1) as Hn.
  remember (scan (seq 0 (S n)) s1) as s2 eqn:E2. clear E2.
  pose proof (progress_read_stop s2) as Hr2.
  destruct (read_stop s2) as [s3 stop3]; simpl in Hr2.
  destruct stop3; [discriminate|].
  intros Hl. apply load_more_next in Hl.
  unfold Maps.progress in *. lia.
Qed.

Lemma extract_loop_ends fuel :
  forall s,
    no_new_results_count s <= 3 ->
    4 * budget (page s) + (4 - no_new_results_count s) <= fuel ->
    exists s' why, extract_loop fuel s = (s', Finished why).
Proof.
  induction fuel as [|fuel IH]; intros s Hn Hf; [lia|].
  simpl. destruct (round s) as [s' [why|]] eqn:Hr.
  - now exists s', why.
  - apply round_next in Hr. apply IH; lia.
Qed.

End Bounded.

(** **** How many scrolls a run makes

    With scrolls that return, a scroll inside a scan uses up four failed
    clicks, and every round adds one scroll at its end. *)

Lemma counts_try_listing i s :
  scrolls (calls (fst (try_listing i s))) = scrolls (calls s)
  /\ clicks (calls (fst (try_listing i s))) = S (clicks (calls s))
  /\ consecutive_failures (fst (try_listing i s)) <= S (consecutive_failures s).
Proof.
  unfold Maps.try_listing, Maps.click, Maps.extract, listing_error.
  destruct (click_listing_by_index i (page s)) as [w1 [[|]|msg]]; simpl;
    rewrite ?scrolls_app, ?clicks_app; simpl; try (repeat split; lia).
  destruct (extract_listing_details_from_panel w1) as [w2 [d|msg]]; simpl;
    [destruct (named d)|]; simpl;
    rewrite ?scrolls_app, ?clicks_app; simpl; repeat split; lia.
Qed.

Section Counting.

Hypothesis scroll_returns :
  forall w, exists grew, snd (scroll_results_panel w) = Ret grew.

Lemma paid_read_stop a b s : paid a b s -> paid a b (fst (read_stop s)).
Proof.
  unfold paid, Maps.read_stop. destruct (stop_extraction (page s)). simpl.
  rewrite scrolls_app, clicks_app. simpl. lia.
Qed.

Lemma paid_count a b s : paid a b s -> paid a b (fst (count s)).
Proof.
  unfold paid, Maps.count. destruct (get_total_results_count (page s)). simpl.
  rewrite scrolls_app, clicks_app. simpl. lia.
Qed.

Lemma paid_scroll_after_failures a b s :
  paid a b s -> paid a b (fst (scroll_after_failures s)).
Proof.
  unfold paid, Maps.scroll_after_failures, Maps.scroll.
  destruct (Nat.ltb_spec 3 (consecutive_failures s)); [|trivial].
  destruct (scroll_returns (page s)) as [grew Hg].
  destruct (scroll_results_panel (page s)) as [w1 r]. simpl in Hg. subst r.
  destruct grew; simpl; rewrite scrolls_app, clicks_app; simpl; lia.
Qed.

Lemma paid_visit a b i s : paid a b s -> paid a b (fst (visit i s)).
Proof.
  intros H. unfold Maps.visit.
  pose proof (paid_read_stop a b s H) as Hr.
  destruct (read_stop s) as [s0 stop]. simpl in Hr.
  destruct stop; [exact Hr|].
  destruct (bool_decide _); [exact Hr|].
  pose proof (counts_try_listing i s0) as [H1 [H2 H3]].
  destruct (try_listing i s0) as [s1 c]. simpl in H1, H2, H3.
  assert (paid a b s1) as Hp by (unfold paid in *; lia).
  destruct c; [now apply paid_scroll_after_failures | exact Hp].
Qed.

Lemma paid_scan a b indices : forall s, paid a b s -> paid a b (scan indices s).
Proof.
  induction indices as [|i indices IH]; intros s H; [exact H|].
  cbn [Maps.scan].
  pose proof (paid_visit a b i s H) as Hv.
  destruct (visit i s) as [s' c]. simpl in Hv.
  destruct c; [now apply IH | exact Hv].
Qed.

Lemma paid_load_more b s : paid 4 b s -> paid 0 b (fst (load_more s)).
Proof.
  unfold paid, Maps.load_more, Maps.scroll.
  destruct (scroll_results_panel (page s)) as [w1 [grew|msg]]; simpl.
  - destruct (3 <? _)%nat; destruct grew; simpl;
      rewrite scrolls_app, clicks_app; simpl; lia.
  - destruct (connection_lost msg); [|destruct (3 <? _)%nat]; simpl;
      rewrite scrolls_app, clicks_app; simpl; lia.
Qed.

Lemma paid_round b s : paid 0 b s -> paid 0 (b + 4) (fst (round s)).
Proof.
  intros H. unfold Maps.round.
  pose proof (paid_read_stop 0 b s H) as Hr.
  destruct (read_stop s) as [s0 stop]. simpl in Hr.
  destruct stop; [unfold paid in *; simpl; lia|].
  pose proof (paid_count 0 b s0 Hr) as Hc.
  destruct (count s0) as [s1 [[|n]|msg]]; simpl in Hc;
    try (unfold paid in *; simpl; lia).
  assert (paid 4 (b + 4) s1) as H4 by (unfold paid in *; lia).
  pose proof (paid_scan 4 (b + 4) (seq 0 (S n)) s1 H4) as Hs.
  remember (scan (seq 0 (S n)) s1) as s2 eqn:E2. clear E2.
  pose proof (paid_read_stop 4 (b + 4) s2 Hs) as Hr2.
  destruct (read_stop s2) as [s3 stop3]. simpl in Hr2.
  destruct stop3; [unfold paid in *; simpl; lia|].
  now apply paid_load_more.
Qed.

Lemma paid_extract_loop fuel :
  forall b s, paid 0 b s -> paid 0 (b + 4 * fuel) (fst (extract_loop fuel s)).
Proof.
  induction fuel as [|fuel IH]; intros b s H.
  - simpl. unfold paid in *. lia.
  - cbn [Maps.extract_loop].
    pose proof (paid_round b s H) as Hr.
    destruct (round s) as [s' [why|]]; simpl in Hr.
    + simpl. unfold paid in *. lia.
    + specialize (IH (b + 4) s' Hr).
      unfold paid in *. lia.
Qed.

(** A run of at most [fuel] rounds makes at most one scroll a round and
    one scroll for every four clicks. *)
Lemma scrolls_bounded fuel found w :
  scrolls (calls (fst (extract_loop fuel (enter found w))))
  <= fuel + clicks (calls (fst (extract_loop fuel (enter found w)))) / 4.
Proof.
  assert (paid 0 0 (enter found w)) as H0 by (unfold paid; simpl; lia).
  pose proof (paid_extract_loop fuel 0 (enter found w) H0) as H.
  unfold paid in H.
  remember (fst (extract_loop fuel (enter found w))) as s eqn:E. clear E.
  replace (fuel + clicks (calls s) / 4)
    with ((clicks (calls s) + fuel * 4) / 4)
    by (rewrite Nat.div_add by lia; lia).
  apply Nat.div_le_lower_bound; lia.
Qed.

End Counting.


(** **** A feed that always grows *)

Lemma no_new_try_listing i s :
  no_new_results_count (fst (try_listing i s)) = no_new_results_count s.
Proof.
  unfold Maps.try_listing, Maps.click, Maps.extract, listing_error.
  destruct (click_listing_by_index i (page s)) as [w1 [[|]|msg]]; simpl;
    try reflexivity.
  destruct (extract_listing_details_from_panel w1) as [w2 [d|msg]]; simpl;
    [destruct (named d)|]; reflexivity.
Qed.

Section Growing.

Hypothesis never_stopped : forall w, snd (stop_extraction w) = false.
Hypothesis some_listing :
  forall w, exists n, snd (get_total_results_count w) = Ret (S n).
Hypothesis always_grows : forall w, snd (scroll_results_panel w) = Ret true.

Lemma visit_growing i s :
  no_new_results_count s = 0 ->
  no_new_results_count (fst (visit i s)) = 0.
Proof.
  intros Hn. unfold Maps.visit, Maps.read_stop.
  destruct (stop_extraction (page s)) as [w0 stop].
  destruct stop; [exact Hn|].
  destruct (bool_decide _); [exact Hn|].
  pose proof (no_new_try_listing i (on_page ReadStop w0 s)) as Ht.
  destruct (try_listing i (on_page ReadStop w0 s)) as [s1 c].
  simpl in Ht. destruct c; [|simpl; congruence].
  unfold Maps.scroll_after_failures, Maps.scroll.
  destruct (3 <? consecutive_failures s1)%nat; [|simpl; congruence].
  pose proof (always_grows (page s1)) as Hg.
  destruct (scroll_results_panel (page s1)) as [w2 r]. simpl in Hg.
  subst r. reflexivity.
Qed.

Lemma scan_growing indices :
  forall s,
    no_new_results_count s = 0 ->
    no_new_results_count (scan indices s) = 0.
Proof.
  induction indices as [|i indices IH]; intros s Hn; [exact Hn|].
  cbn [Maps.scan].
  pose proof (visit_growing i s Hn) as Hv.
  destruct (visit i s) as [s' c]. simpl in Hv.
  destruct c; [now apply IH | exact Hv].
Qed.

Lemma round_growing s :
  no_new_results_count s = 0 ->
  exists s', round s = (s', None) /\ no_new_results_count s' = 0.
Proof.
  intros Hn. unfold Maps.round, Maps.read_stop.
  pose proof (never_stopped (page s)) as Hs.
  destruct (stop_extraction (page s)) as [w0 stop]. simpl in Hs. subst stop.
  unfold Maps.count. cbn [page on_page].
  destruct (some_listing w0) as [n Hc].
  destruct (get_total_results_count w0) as [w1 r]. simpl in Hc. subst r.
  pose proof (scan_growing (seq 0 (S n))
                (on_page Count w1 (on_page ReadStop w0 s)) Hn) as Hk.
  remember (scan (seq 0 (S n)) (on_page Count w1 (on_page ReadStop w0 s)))
    as s2 eqn:E2. clear E2.
  pose proof (never_stopped (page s2)) as Hs2.
  destruct (stop_extraction (page s2)) as [w3 stop3]. simpl in Hs2.
  subst stop3.
  unfold Maps.load_more, Maps.scroll. cbn [page on_page].
  pose proof (always_grows w3) as Hg.
  destruct (scroll_results_panel w3) as [w4 r]. simpl in Hg. subst r.
  eexists. split; reflexivity.
Qed.

(** While every scroll reports new items the loop does not end. *)
Lemma extract_loop_growing fuel :
  forall s,
    no_new_results_count s = 0 ->
    snd (extract_loop fuel s) = Running.
Proof.
  induction fuel as [|fuel IH]; intros s Hn; [reflexivity|].
  cbn [Maps.extract_loop].
  destruct (round_growing s Hn) as [s' [-> Hn']]. now apply IH.
Qed.

End Growing.

End LoopFacts.

(** With the helper methods of the class and its detail parse, the [except]
    of a listing is dead code: no listing ever leaves the scan by it. *)
Lemma own_helpers_never_break
    (D Feed Link : Type) (find_feed : computation D Feed)
    (find_listings : Feed -> computation D (list Link))
    (scroll_into_view click_link : Link -> computation D unit)
    (re_findall : string -> string -> list string) (panel : D -> Panel)
    (i : nat) (s : session D) :
  snd (try_listing D
         (click_listing_by_index D Feed Link find_feed find_listings
            scroll_into_view click_link)
         (parse_panel D re_findall panel) i s) = Next.
Proof.
  apply try_listing_goes_on; intros w.
  - apply (helpers_return D Feed Link find_feed find_listings scroll_into_view
             click_link (fun _ => ret tt)).
  - apply (helpers_return D Feed Link find_feed find_listings scroll_into_view
             click_link (fun _ => ret tt)).
Qed.

(** *** The loop on the example feeds *)

(** C1 on a feed of two listings, the second of which is loaded by the
    first scroll. *)
Lemma results_all_named_witness :
  extract_all_results feed feed_stop feed_count feed_click feed_extract
    feed_scroll 8 [] {| loaded := 1; total := 2 |}
  = Some [listing "Cafe"; listing "Cafe"]
  /\ Forall (fun d => exists n, name d = Some n /\ n <> "")
       [listing "Cafe"; listing "Cafe"].
Proof.
  split; [reflexivity|].
  destruct (results_all_named feed feed_stop feed_count feed_click
              feed_extract feed_scroll) as [_ [H _]].
  apply (H 8 {| loaded := 1; total := 2 |}). reflexivity.
Defined.

(** C8 on nine listings that do not open: two scrolls, after the fourth
    and after the eighth failure, and a streak of one at the end. *)
Lemma failure_streak_of_four_scrolls_witness :
  let s := scan nat closed_stop closed_click closed_extract closed_scroll
             (seq 0 9) (enter [] 9) in
  scrolls (calls s) = 2 /\ consecutive_failures s = 1 /\ clicks (calls s) = 9.
Proof.
  destruct (failure_streak_of_four_scrolls nat closed_stop closed_click
              closed_extract closed_scroll) as [H _].
  apply (H (fun _ => eq_refl) (fun _ _ => I)
           (fun _ => ex_intro _ false eq_refl) (seq 0 9) (enter [] 9)).
  - intros i _. apply not_elem_of_empty.
  - simpl. lia.
Defined.

(** C8, as the specification words it, fails: after three failures in a
    row on a feed of three listings no scroll was made and the streak
    stands at three; it is the fourth failure that scrolls. *)
Lemma three_failures_do_not_scroll :
  let three := scan nat closed_stop closed_click closed_extract
                 closed_scroll (seq 0 3) (enter [] 3) in
  let four := scan nat closed_stop closed_click closed_extract
                closed_scroll (seq 0 4) (enter [] 4) in
  calls three = [ReadStop; Click 0; ReadStop; Click 1; ReadStop; Click 2]
  /\ consecutive_failures three = 3
  /\ scrolls (calls three) = 0
  /\ calls four = [ReadStop; Click 0; ReadStop; Click 1; ReadStop; Click 2;
                   ReadStop; Click 3; Scroll]
  /\ consecutive_failures four = 0.
Proof. repeat split; reflexivity. Qed.




End MapsFacts.

(** ** The archiver: what is counted and what is stored *)

Module ZipCountFacts.
Import PyStr PyStrFacts OsPath OsPathFacts Zip ZipFacts ZipCount.

Lemma append_assoc (a b c : string) : (a ++ b) ++ c = a ++ (b ++ c).
Proof. induction a as [|x a IH]; simpl; [reflexivity | now rewrite IH]. Qed.

Lemma slash_lower_char c :
  Ascii.eqb "/" (lower_char c) = Ascii.eqb "/" c.
Proof. destruct c as [[] [] [] [] [] [] [] []]; reflexivity. Qed.

Lemma lower_char_slash c :
  Ascii.eqb (lower_char c) "/" = Ascii.eqb c "/".
Proof. destruct c as [[] [] [] [] [] [] [] []]; reflexivity. Qed.

Lemma has_slash_lower s : has_char "/" (lower s) = has_char "/" s.
Proof.
  induction s as [|c s IH]; simpl; [reflexivity|].
  now rewrite IH, slash_lower_char.
Qed.

(** Lowercasing commutes with taking the base name. *)
Lemma lower_basename p : lower (basename p) = basename (lower p).
Proof.
  induction p as [|c q IH]; simpl; [reflexivity|].
  rewrite has_slash_lower, lower_char_slash.
  destruct (has_char "/" q); [exact IH|].
  now destruct (Ascii.eqb c "/").
Qed.

(** A file whose name ends with ".zip" in any letter case is excluded
    wherever it lies. *)
Lemma is_zip_excluded root file_name :
  is_zip file_name = true ->
  should_exclude_file (join root file_name) = true.
Proof.
  unfold is_zip. intros H. apply endswith_true in H. destruct H as [pre H].
  apply should_exclude_file_true. left. rewrite lower_basename.
  apply basename_ends_with; [reflexivity|].
  unfold join. rewrite !lower_app, H.
  exists (lower root ++ lower "/" ++ pre).
  now rewrite !append_assoc.
Qed.

Lemma walk_files_app a b : walk_files (a ++ b) = walk_files a + walk_files b.
Proof. unfold walk_files. now rewrite map_app, list_sum_app. Qed.

Lemma walk_dirs_app a b : walk_dirs (a ++ b) = walk_dirs a + walk_dirs b.
Proof. unfold walk_dirs. now rewrite map_app, list_sum_app. Qed.

Lemma list_sum_cons a l : list_sum (a :: l) = a + list_sum l.
Proof. reflexivity. Qed.

Lemma names_file n ts :
  file_names (File n :: ts) = n :: file_names ts
  /\ dir_names (File n :: ts) = dir_names ts.
Proof. now split. Qed.

Lemma names_dir n cs ts :
  file_names (Dir n cs :: ts) = file_names ts
  /\ dir_names (Dir n cs :: ts) = n :: dir_names ts.
Proof. now split. Qed.

(** What a list of trees adds to a walk, given what each tree adds. *)
Lemma children_counts path children :
  Forall (fun t =>
            walk_files (walk_tree path t)
            + (match t with File _ => 1 | Dir _ _ => 0 end) = tree_files t
            /\ walk_dirs (walk_tree path t)
               + (match t with File _ => 0 | Dir _ _ => 1 end) = tree_dirs t)
         children ->
  List.length (file_names children)
  + walk_files (flat_map (walk_tree path) children)
  = list_sum (map tree_files children)
  /\ List.length (dir_names children)
     + walk_dirs (flat_map (walk_tree path) children)
     = list_sum (map tree_dirs children).
Proof.
  induction 1 as [|c children [Hc1 Hc2] _ [IH1 IH2]]; [now split|].
  cbn [flat_map map]. rewrite !list_sum_cons.
  rewrite walk_files_app, walk_dirs_app.
  destruct c as [m|m cs].
  - destruct (names_file m children) as [-> ->]. cbn [List.length]. split; lia.
  - destruct (names_dir m cs children) as [-> ->]. cbn [List.length]. split; lia.
Qed.

(** [os.walk] lists every file and every directory below its root once. *)
Lemma walk_tree_counts :
  forall t root,
    walk_files (walk_tree root t) + (match t with File _ => 1 | Dir _ _ => 0 end)
    = tree_files t
    /\ walk_dirs (walk_tree root t) + (match t with File _ => 0 | Dir _ _ => 1 end)
       = tree_dirs t.
Proof.
  fix IH 1. intros [n|n children] root; [now split|].
  cbn [walk_tree tree_files tree_dirs].
  destruct (children_counts (join root n) children) as [Hf Hd].
  { revert children. fix IHc 1. intros [|c children]; constructor.
    - apply IH.
    - apply IHc. }
  unfold walk_files, walk_dirs in *. cbn [map snd fst].
  rewrite !list_sum_cons. split; lia.
Qed.

Lemma os_walk_counts top :
  walk_files (os_walk top) = list_sum (map tree_files top)
  /\ walk_dirs (os_walk top) = list_sum (map tree_dirs top).
Proof.
  unfold os_walk.
  destruct (children_counts "." top) as [Hf Hd].
  { apply Forall_forall. intros t _. apply walk_tree_counts. }
  unfold walk_files, walk_dirs in *. cbn [map snd fst].
  rewrite !list_sum_cons. split; lia.
Qed.

Lemma preview_sums items :
  preview items = (walk_files items + walk_dirs items, walk_zips items).
Proof.
  unfold preview.
  assert (forall t z,
             fold_left
               (fun (acc : nat * nat) (item : walk_item) =>
                  let '(total_items, zip_files) := acc in
                  let '(_, dirs, files) := item in
                  (total_items + (List.length files + List.length dirs),
                   zip_files + List.length (List.filter is_zip files)))
               items (t, z)
             = (t + (walk_files items + walk_dirs items), z + walk_zips items))
    as H.
  { induction items as [|[[root dirs] files] items IH]; intros t z.
    - unfold walk_files, walk_dirs, walk_zips. simpl. f_equal; lia.
    - cbn [fold_left]. rewrite IH.
      unfold walk_files, walk_dirs, walk_zips. cbn [map snd fst].
      rewrite !list_sum_cons. f_equal; lia. }
  now rewrite H.
Qed.

Lemma filter_length_le {A : Type} (p : A -> bool) l :
  List.length (List.filter p l) <= List.length l.
Proof.
  induction l as [|a l IH]; simpl; [lia|]. destruct (p a); simpl; lia.
Qed.

Lemma walk_zips_le items : walk_zips items <= walk_files items.
Proof.
  unfold walk_zips, walk_files.
  induction items as [|item items IH]; [simpl; lia|].
  cbn [map]. rewrite !list_sum_cons.
  pose proof (filter_length_le is_zip (snd item)). lia.
Qed.

Section Counting.

Variable zip_open : string -> option string.
Variable zip_write : list member -> string -> option string.
Variable zip_close : list member -> option string.
Variable getsize : string -> option string.
Variable exclude_hidden : bool.
Variable verbose : bool.

Abbreviation add_dir := (add_dir zip_write exclude_hidden verbose).
Abbreviation add_dirs := (add_dirs zip_write exclude_hidden verbose).
Abbreviation add_file := (add_file zip_write exclude_hidden verbose).
Abbreviation add_files := (add_files zip_write exclude_hidden verbose).
Abbreviation visit := (visit zip_write exclude_hidden verbose).
Abbreviation walk := (walk zip_write exclude_hidden verbose).
Abbreviation create_directory_zip :=
  (create_directory_zip zip_open zip_write zip_close getsize
     exclude_hidden verbose).
Abbreviation main :=
  (main zip_open zip_write zip_close getsize exclude_hidden verbose).

(** What a message changes: nothing that is counted. *)
Lemma say_if_same b line st :
  members (say_if b line st) = members st
  /\ files_added (say_if b line st) = files_added st
  /\ folders_added (say_if b line st) = folders_added st
  /\ files_skipped (say_if b line st) = files_skipped st.
Proof. destruct b; repeat split. Qed.

(** **** The counters and the archive *)

Lemma tallied_say_if b line st : tallied st -> tallied (say_if b line st).
Proof.
  unfold tallied. destruct (say_if_same b line st) as [-> [-> [-> _]]]. trivial.
Qed.

Lemma add_dir_tallied root st d : tallied st -> tallied (ended (add_dir root st d)).
Proof.
  intros H. unfold Zip.add_dir.
  destruct (exclude_hidden && startswith d "."); cbn [ended].
  - now apply tallied_say_if.
  - destruct (zip_write (members st) (join root d)); cbn [ended]; [exact H|].
    apply tallied_say_if. destruct H as [H1 H2]. unfold tallied. simpl.
    rewrite !List.filter_app, !List.length_app. simpl. lia.
Qed.

Lemma add_dirs_tallied root dirs :
  forall st, tallied st -> tallied (ended (add_dirs root st dirs)).
Proof.
  induction dirs as [|d dirs IH]; intros st H; [exact H|].
  cbn [Zip.add_dirs].
  pose proof (add_dir_tallied root st d H) as Hd.
  destruct (add_dir root st d); cbn [ended] in *; [now apply IH | exact Hd].
Qed.

Lemma add_file_tallied root st f : tallied st -> tallied (add_file root st f).
Proof.
  intros H. unfold Zip.add_file.
  destruct (should_exclude_file (join root f)).
  - apply tallied_say_if. exact H.
  - destruct (exclude_hidden && startswith f ".").
    + apply tallied_say_if. exact H.
    + destruct (zip_write (members st) (join root f)); [exact H|].
      apply tallied_say_if. destruct H as [H1 H2]. unfold tallied. simpl.
      rewrite !List.filter_app, !List.length_app. simpl. lia.
Qed.

Lemma add_files_tallied root files :
  forall st, tallied st -> tallied (add_files root st files).
Proof.
  unfold Zip.add_files.
  induction files as [|f files IH]; intros st H; [exact H|].
  cbn [fold_left]. apply IH, add_file_tallied, H.
Qed.

Lemma walk_tallied items :
  forall st, tallied st -> tallied (ended (walk st items)).
Proof.
  induction items as [|[[root dirs] files] items IH]; intros st H; [exact H|].
  cbn [Zip.walk Zip.visit].
  pose proof (add_dirs_tallied root dirs st H) as Hd.
  destruct (add_dirs root st dirs) as [st1|st1 msg]; cbn [ended] in *;
    [|exact Hd].
  apply IH, add_files_tallied, Hd.
Qed.

(** What holds of the counters at the start and at the end of the walk,
    and is not changed by a message, holds of the counters of the run. *)
Lemma create_directory_zip_counters (P : counters -> Prop) timestamp output top :
  (forall line st, P st -> P (say line st)) ->
  P start ->
  P (ended (walk start (os_walk top))) ->
  P (snd (create_directory_zip timestamp output top)).
Proof.
  intros Hsay H0 Hw. unfold Zip.create_directory_zip, failure.
  destruct (zip_open (archive_name timestamp output)); [now apply Hsay|].
  destruct (walk start (os_walk top)) as [st|st msg]; cbn [ended] in Hw.
  - destruct (zip_close (members st)); [now apply Hsay|].
    destruct (getsize (archive_name timestamp output)); exact Hw.
  - destruct (zip_close (members st)); now apply Hsay.
Qed.

(** The counters of a run tell what its archive holds: [files_added]
    files and [folders_added] folders, whatever failed on the way. *)
Theorem counters_tell_the_archive timestamp output top :
  let st := snd (create_directory_zip timestamp output top) in
  files_added st = List.length (List.filter is_member (members st))
  /\ folders_added st
     = List.length (List.filter (fun m => negb (is_member m)) (members st))
  /\ List.length (members st) = files_added st + folders_added st.
Proof.
  intros st.
  assert (tallied st) as [H1 H2].
  { apply create_directory_zip_counters.
    - intros line st0 H. exact H.
    - now split.
    - apply walk_tallied. now split. }
  split; [exact H1|]. split; [exact H2|].
  rewrite H1, H2. clear.
  induction (members st) as [|m ms IH]; simpl; [reflexivity|].
  destruct (is_member m); simpl; lia.
Qed.

(** **** Every file is counted once *)

Lemma add_file_counted root st f :
  counted 1 (if is_zip f then 1 else 0)
    (if skips exclude_hidden root f then 1 else 0) st (add_file root st f).
Proof.
  unfold counted, Zip.add_file, skips.
  pose proof (is_zip_excluded root f) as Hz.
  destruct (should_exclude_file (join root f)); cbn [orb].
  - destruct (say_if_same verbose
                (if endswith (lower f) ".zip"
                 then "Skipped (zip file): " ++ join root f
                 else "Skipped: " ++ join root f) (count_skipped st))
      as [_ [-> [-> ->]]].
    simpl. destruct (is_zip f); lia.
  - destruct (is_zip f); [now discriminate Hz|].
    destruct (exclude_hidden && startswith f ".").
    + destruct (say_if_same verbose ("Skipped (hidden): " ++ join root f)
                  (count_skipped st)) as [_ [-> [-> ->]]].
      simpl. lia.
    + destruct (zip_write (members st) (join root f)).
      * simpl. lia.
      * destruct (say_if_same verbose ("Added: " ++ join root f)
                    (count_file (store (Member (join root f)) st)))
          as [_ [-> [-> ->]]].
        simpl. lia.
Qed.

Lemma add_files_counted root files :
  forall st,
    counted (List.length files) (List.length (List.filter is_zip files))
      (List.length (List.filter (skips exclude_hidden root) files))
      st (add_files root st files).
Proof.
  unfold Zip.add_files.
  induction files as [|f files IH]; intros st.
  - unfold counted. simpl. lia.
  - cbn [fold_left].
    pose proof (add_file_counted root st f) as H1.
    pose proof (IH (add_file root st f)) as H2.
    unfold counted in *. simpl.
    destruct (is_zip f); destruct (skips exclude_hidden root f); simpl; lia.
Qed.

Lemma add_dir_counted root st d :
  files_added (ended (add_dir root st d)) = files_added st
  /\ files_skipped (ended (add_dir root st d)) = files_skipped st
  /\ folders_added (ended (add_dir root st d)) <= S (folders_added st)
  /\ folders_added st <= folders_added (ended (add_dir root st d)).
Proof.
  unfold Zip.add_dir.
  destruct (exclude_hidden && startswith d "."); cbn [ended].
  - destruct (say_if_same verbose ("Skipped (hidden): " ++ join root d) st)
      as [_ [-> [-> ->]]]. lia.
  - destruct (zip_write (members st) (join root d)); cbn [ended]; [lia|].
    destruct (say_if_same verbose ("Added folder: " ++ join root d)
                (count_folder (store (Folder (join root d)) st)))
      as [_ [-> [-> ->]]].
    simpl. lia.
Qed.

Lemma add_dirs_counted root dirs :
  forall st,
    files_added (ended (add_dirs root st dirs)) = files_added st
    /\ files_skipped (ended (add_dirs root st dirs)) = files_skipped st
    /\ folders_added (ended (add_dirs root st dirs))
       <= folders_added st + List.length dirs.
Proof.
  induction dirs as [|d dirs IH]; intros st; [simpl; lia|].
  cbn [Zip.add_dirs].
  pose proof (add_dir_counted root st d) as Hd.
  destruct (add_dir root st d) as [st1|st1 msg]; cbn [ended] in *.
  - specialize (IH st1). simpl. lia.
  - simpl. lia.
Qed.

(** Whatever fails, no file is counted twice and no zip file is added. *)
Lemma walk_counted items :
  forall st,
    files_added (ended (walk st items)) + files_skipped (ended (walk st items))
    <= files_added st + files_skipped st + walk_files items
    /\ files_added (ended (walk st items)) + walk_zips items
       <= files_added st + walk_files items
    /\ folders_added (ended (walk st items))
       <= folders_added st + walk_dirs items.
Proof.
  induction items as [|[[root dirs] files] items IH]; intros st.
  - unfold walk_files, walk_zips, walk_dirs. simpl. lia.
  - cbn [Zip.walk Zip.visit].
    unfold walk_files, walk_zips, walk_dirs in *. cbn [map snd fst].
    rewrite !list_sum_cons.
    pose proof (add_dirs_counted root dirs st) as Hd.
    pose proof (filter_length_le is_zip files) as Hz.
    pose proof (walk_zips_le items) as Hzs. unfold walk_zips, walk_files in Hzs.
    destruct (add_dirs root st dirs) as [st1|st1 msg]; cbn [ended] in *.
    + pose proof (add_files_counted root files st1) as Hf.
      specialize (IH (add_files root st1 files)).
      unfold counted in Hf. lia.
    + lia.
Qed.

(** When no write fails the walk goes through and every file is either
    added or skipped. *)
Lemma add_file_written root st f :
  (forall ms p, zip_write ms p = None) ->
  files_added (add_file root st f) + files_skipped (add_file root st f)
  = S (files_added st + files_skipped st).
Proof.
  intros Hw. unfold Zip.add_file.
  destruct (should_exclude_file (join root f)).
  - destruct (say_if_same verbose
                (if endswith (lower f) ".zip"
                 then "Skipped (zip file): " ++ join root f
                 else "Skipped: " ++ join root f) (count_skipped st))
      as [_ [-> [_ ->]]].
    simpl. lia.
  - destruct (exclude_hidden && startswith f ".").
    + destruct (say_if_same verbose ("Skipped (hidden): " ++ join root f)
                  (count_skipped st)) as [_ [-> [_ ->]]].
      simpl. lia.
    + rewrite Hw.
      destruct (say_if_same verbose ("Added: " ++ join root f)
                  (count_file (store (Member (join root f)) st)))
        as [_ [-> [_ ->]]].
      simpl. lia.
Qed.

Lemma add_files_written root files :
  (forall ms p, zip_write ms p = None) ->
  forall st,
    files_added (add_files root st files) + files_skipped (add_files root st files)
    = files_added st + files_skipped st + List.length files.
Proof.
  intros Hw. unfold Zip.add_files.
  induction files as [|f files IH]; intros st; [simpl; lia|].
  cbn [fold_left]. rewrite IH.
  pose proof (add_file_written root st f Hw). simpl. lia.
Qed.

Lemma walk_written items :
  (forall ms p, zip_write ms p = None) ->
  forall st,
    exists st',
      walk st items = Going st'
      /\ files_added st' + files_skipped st'
         = files_added st + files_skipped st + walk_files items
      /\ files_skipped st' = files_skipped st + walk_skipped exclude_hidden items.
Proof.
  intros Hw.
  induction items as [|[[root dirs] files] items IH]; intros st.
  - exists st. unfold walk_files, walk_skipped. simpl. split; [reflexivity | lia].
  - cbn [Zip.walk Zip.visit].
    destruct (add_dirs_going zip_write exclude_hidden verbose root dirs
                (fun ms d _ => Hw ms (join root d)) st) as [st1 E].
    pose proof (add_dirs_counted root dirs st) as Hd. rewrite E in *.
    cbn [ended] in Hd.
    destruct (IH (add_files root st1 files)) as [st2 [-> [H1 H2]]].
    exists st2. split; [reflexivity|].
    pose proof (add_files_written root files Hw st1) as Hf.
    pose proof (add_files_counted root files st1) as Hc. unfold counted in Hc.
    unfold walk_files, walk_skipped in *. cbn [map snd fst].
    rewrite !list_sum_cons. lia.
Qed.

(** Every file of the tree is counted at most once, as added or as
    skipped, and when no write fails it is counted exactly once; the files
    skipped are then those that the test of the loop skips. *)
Theorem every_file_is_counted timestamp output top :
  let st := snd (create_directory_zip timestamp output top) in
  files_added st + files_skipped st <= list_sum (map tree_files top)
  /\ folders_added st <= list_sum (map tree_dirs top)
  /\ (zip_open (archive_name timestamp output) = None ->
      (forall ms p, zip_write ms p = None) ->
      files_added st + files_skipped st = list_sum (map tree_files top)
      /\ files_skipped st = walk_skipped exclude_hidden (os_walk top)).
Proof.
  intros st. destruct (os_walk_counts top) as [Ef Ed].
  pose proof (walk_counted (os_walk top) start) as [H1 [_ H3]].
  change (files_added start) with 0 in H1.
  change (files_skipped start) with 0 in H1.
  change (folders_added start) with 0 in H3.
  rewrite Ef in H1. rewrite Ed in H3.
  split; [|split].
  - unfold st.
    apply (create_directory_zip_counters
             (fun c => files_added c + files_skipped c
                       <= list_sum (map tree_files top)));
      [trivial | cbn [start files_added files_skipped]; lia | exact H1].
  - unfold st.
    apply (create_directory_zip_counters
             (fun c => folders_added c <= list_sum (map tree_dirs top)));
      [trivial | cbn [start folders_added]; lia | exact H3].
  - intros Hopen Hw. unfold st, Zip.create_directory_zip. rewrite Hopen.
    destruct (walk_written (os_walk top) Hw start) as [st' [-> [E1 E2]]].
    change (files_added start) with 0 in E1.
    change (files_skipped start) with 0 in E1, E2.
    rewrite Ef in E1.
    assert (files_added st' + files_skipped st' = list_sum (map tree_files top)
            /\ files_skipped st' = walk_skipped exclude_hidden (os_walk top))
      as Hst by (split; lia).
    unfold failure.
    destruct (zip_close (members st')); [exact Hst|].
    destruct (getsize (archive_name timestamp output)); exact Hst.
Qed.

(** The number of items that [main] announces as about to be zipped is
    never exceeded: the files and folders added are at most the items of the
    walk less its zip files. *)
Theorem announced_items_bound_the_archive timestamp output top :
  let st := snd (create_directory_zip timestamp output top) in
  snd (preview (os_walk top)) <= fst (preview (os_walk top))
  /\ files_added st + folders_added st <= approximately (os_walk top).
Proof.
  intros st. unfold approximately. rewrite preview_sums. cbn [fst snd].
  pose proof (walk_counted (os_walk top) start) as [_ [H2 H3]].
  change (files_added start) with 0 in H2.
  change (folders_added start) with 0 in H3.
  pose proof (walk_zips_le (os_walk top)) as Hz.
  split; [lia|].
  unfold st.
  apply (create_directory_zip_counters
           (fun c => files_added c + folders_added c
                     <= walk_files (os_walk top) + walk_dirs (os_walk top)
                        - walk_zips (os_walk top)));
    [trivial | cbn [start files_added folders_added]; lia | lia].
Qed.

(** **** A folder that cannot be written *)

Lemma add_dirs_fails root dirs d msg :
  In d dirs ->
  exclude_hidden && startswith d "." = false ->
  (forall ms, zip_write ms (join root d) = Some msg) ->
  forall st,
    exists st' msg',
      add_dirs root st dirs = Failed st' msg'
      /\ files_added st' = files_added st.
Proof.
  intros Hin Hhid Hw.
  induction dirs as [|d' dirs IH]; intros st; [destruct Hin|].
  cbn [Zip.add_dirs].
  pose proof (add_dir_counted root st d') as Hc.
  destruct (add_dir root st d') as [st1|st1 msg1] eqn:E; cbn [ended] in Hc.
  - destruct Hin as [-> | Hin].
    + unfold Zip.add_dir in E. rewrite Hhid, Hw in E. discriminate.
    + destruct (IH Hin st1) as [st' [msg' [-> Hf]]].
      exists st', msg'. split; [reflexivity | lia].
  - exists st1, msg1. split; [reflexivity | lia].
Qed.

(** Unlike a file, a folder of the working directory that cannot be
    written ends the run: the call returns [False] before any file was added,
    and the process ends with status 1. *)
Theorem unwritable_folder_ends_the_run timestamp output top d msg :
  zip_open (archive_name timestamp output) = None ->
  In d (dir_names top) ->
  exclude_hidden && startswith d "." = false ->
  (forall ms, zip_write ms (join "." d) = Some msg) ->
  fst (create_directory_zip timestamp output top) = Ret false
  /\ files_added (snd (create_directory_zip timestamp output top)) = 0
  /\ main timestamp output "y" top = 1.
Proof.
  intros Hopen Hin Hhid Hw.
  assert (fst (create_directory_zip timestamp output top) = Ret false
          /\ files_added (snd (create_directory_zip timestamp output top)) = 0)
    as [H1 H2].
  { unfold Zip.create_directory_zip, os_walk. rewrite Hopen.
    cbn [Zip.walk Zip.visit].
    destruct (add_dirs_fails "." (dir_names top) d msg Hin Hhid Hw start)
      as [st' [msg' [-> Hf]]].
    unfold failure. destruct (zip_close (members st')); split; trivial. }
  split; [exact H1|]. split; [exact H2|].
  unfold Zip.main. rewrite H1. now destruct verbose.
Qed.

End Counting.

(** A working directory with a folder that cannot be written. *)
Definition folder_write_fails (ms : list member) (path : string)
  : option string :=
  if String.eqb path "./docs" then Some "Permission denied" else None.

Lemma unwritable_folder_witness :
  Zip.create_directory_zip always_ok folder_write_fails always_ok always_ok
    true false "20240101_120000" None [File "a.txt"; Dir "docs" [File "b.txt"]]
  = (Ret false,
     {| members := []; files_added := 0; folders_added := 0;
        files_skipped := 0;
        stdout := ["Error creating zip file: Permission denied"] |})
  /\ Zip.main always_ok folder_write_fails always_ok always_ok true false
       "20240101_120000" None "y" [File "a.txt"; Dir "docs" [File "b.txt"]] = 1.
Proof.
  split; [reflexivity|].
  apply (unwritable_folder_ends_the_run always_ok folder_write_fails always_ok
           always_ok true false "20240101_120000" None
           [File "a.txt"; Dir "docs" [File "b.txt"]] "docs" "Permission denied");
    try reflexivity.
  simpl. now left.
Defined.

(** Three files of which one is a zip file and one is hidden, all writes
    succeeding: one added, two skipped. *)
Lemma every_file_is_counted_witness :
  let st := snd (Zip.create_directory_zip always_ok (fun _ => always_ok)
                   always_ok always_ok false false "20240101_120000" None
                   [File "old.ZIP"; File ".env"; Dir "src" [File "a.py"]]) in
  files_added st + files_skipped st = 3
  /\ files_skipped st = 2.
Proof.
  destruct (every_file_is_counted always_ok (fun _ => always_ok) always_ok
              always_ok false false "20240101_120000" None
              [File "old.ZIP"; File ".env"; Dir "src" [File "a.py"]])
    as [_ [_ H]].
  apply H; reflexivity.
Defined.

(** **** Hidden files and the flag *)

(** Hidden files are excluded by the predicate itself, so they stay out of
    the archive when hidden entries are asked for too, as do zip and
    temporary files; for a file the flag changes nothing at all. *)
Theorem hidden_files_are_never_stored
    (zip_open : string -> option string)
    (zip_write : list member -> string -> option string)
    (zip_close : list member -> option string)
    (getsize : string -> option string) (verbose : bool) :
  (forall exclude_hidden timestamp output top path,
      In (Member path)
         (members (snd (Zip.create_directory_zip zip_open zip_write zip_close
                          getsize exclude_hidden verbose timestamp output top))) ->
      ~ starts_with (basename path) "."
      /\ ~ ends_with (lower (basename path)) ".zip"
      /\ forall ext, In ext temp_extensions -> ~ ends_with (basename path) ext)
  /\ (forall root st file_name,
         has_char "/" file_name = false ->
         Zip.add_file zip_write true verbose root st file_name
         = Zip.add_file zip_write false verbose root st file_name).
Proof.
  split.
  - intros exclude_hidden timestamp output top path Hin.
    pose proof (create_directory_zip_pass zip_open zip_write zip_close getsize
                  exclude_hidden verbose timestamp output top path Hin) as Hp.
    assert (forall P, (P -> should_exclude_file path = true) -> ~ P) as Hno
        by (intros P HP p; specialize (HP p); congruence).
    split; [|split].
    + apply Hno. intros H. apply should_exclude_file_true. right. now left.
    + apply Hno. intros H. apply should_exclude_file_true. now left.
    + intros ext Hext. apply Hno. intros H.
      apply should_exclude_file_true. right. right. now exists ext.
  - intros root st file_name Hslash. unfold Zip.add_file.
    destruct (should_exclude_file (join root file_name)) eqn:E; [reflexivity|].
    destruct (startswith file_name ".") eqn:Hs; [|reflexivity].
    exfalso.
    assert (should_exclude_file (join root file_name) = true) as Ht.
    { apply should_exclude_file_true. right. left.
      rewrite basename_join by exact Hslash. now apply startswith_true. }
    congruence.
Qed.

Lemma hidden_files_witness :
  Zip.create_directory_zip always_ok (fun _ => always_ok) always_ok always_ok
    false false "20240101_120000" None [File ".env"; File "a.txt"]
  = (Ret true,
     {| members := [Member "./a.txt"]; files_added := 1; folders_added := 0;
        files_skipped := 1; stdout := [] |})
  /\ Zip.add_file (fun _ => always_ok) true false "." start ".env"
     = Zip.add_file (fun _ => always_ok) false false "." start ".env".
Proof.
  split; [reflexivity|].
  destruct (hidden_files_are_never_stored always_ok (fun _ => always_ok)
              always_ok always_ok false) as [_ H].
  apply H. reflexivity.
Defined.

(** **** The name of the archive *)

(** The extension is appended once: a name that went through
    [create_directory_zip] is kept as it is when given again, and the name
    generated from the time stamp is used as it is. *)
Theorem archive_name_is_stable timestamp output :
  archive_name timestamp (Some (archive_name timestamp output))
  = archive_name timestamp output
  /\ archive_name timestamp None = "directory_backup_" ++ timestamp ++ ".zip".
Proof.
  assert (forall f, ends_with f ".zip" -> archive_name timestamp (Some f) = f)
    as Hkeep.
  { intros f Hf. unfold archive_name. apply endswith_true in Hf. now rewrite Hf. }
  split.
  - apply Hkeep, archive_name_ends_with.
  - unfold archive_name, get_zip_filename.
    assert (endswith ("directory_backup_" ++ timestamp ++ ".zip") ".zip" = true)
      as -> by (apply endswith_true; exists ("directory_backup_" ++ timestamp);
                now rewrite append_assoc).
    reflexivity.
Qed.

End ZipCountFacts.

(** ** The extractor: cleaning, messages and file names *)

Module MapsRunFacts.
Import PyStr PyStrFacts Maps MapsFacts MapsRun.

(** *** Strings *)

Lemma keep_chars_all cls s : all_chars cls (keep_chars cls s) = true.
Proof.
  unfold all_chars. induction s as [|c s IH]; simpl; [reflexivity|].
  destruct (cls c) eqn:E; simpl; [now rewrite E|exact IH].
Qed.

Lemma keep_chars_fixed cls s : all_chars cls s = true -> keep_chars cls s = s.
Proof.
  unfold all_chars. induction s as [|c s IH]; simpl; [reflexivity|].
  intros H. apply andb_true_iff in H. destruct H as [-> H]. now rewrite IH.
Qed.

Lemma all_chars_weaken (cls cls' : ascii -> bool) s :
  (forall c, cls c = true -> cls' c = true) ->
  all_chars cls s = true -> all_chars cls' s = true.
Proof.
  unfold all_chars. intros Hc. induction s as [|c s IH]; simpl; [reflexivity|].
  intros H. apply andb_true_iff in H. destruct H as [H1 H2].
  now rewrite (Hc c H1), IH.
Qed.

Lemma prefix_app n b : String.prefix n (n ++ b) = true.
Proof. change (startswith (n ++ b) n = true). apply startswith_true. now exists b. Qed.

Lemma contains_unfold needle s :
  contains needle s
  = (String.prefix needle s
     || match s with
        | EmptyString => false
        | String _ s' => contains needle s'
        end).
Proof. destruct s; reflexivity. Qed.

(** [needle in s] means that [s] has [needle] somewhere. *)
Lemma contains_true needle s :
  contains needle s = true <-> exists a b, s = a ++ needle ++ b.
Proof.
  split.
  - induction s as [|c s IH]; simpl.
    + rewrite orb_false_r. intros H.
      change (startswith "" needle = true) in H. apply startswith_true in H.
      destruct H as [b H]. exists "", b. exact H.
    + intros H. apply orb_true_iff in H. destruct H as [H|H].
      * change (startswith (String c s) needle = true) in H.
        apply startswith_true in H. destruct H as [b H]. exists "", b. exact H.
      * destruct (IH H) as [a [b ->]]. exists (String c a), b. reflexivity.
  - intros [a [b ->]]. induction a as [|c a IH].
    + simpl append. now rewrite contains_unfold, prefix_app.
    + simpl append. rewrite contains_unfold, IH. apply orb_true_r.
Qed.

(** *** The message of a lost browser *)

(** A message tells a lost browser exactly when it has "connection" or
    "session" somewhere, in any letter case. *)
Theorem connection_lost_spec msg :
  connection_lost msg = true <->
  exists a b,
    lower msg = a ++ "connection" ++ b \/ lower msg = a ++ "session" ++ b.
Proof.
  unfold connection_lost. rewrite orb_true_iff, !contains_true.
  split.
  - intros [[a [b H]]|[a [b H]]]; exists a, b; [now left | now right].
  - intros [a [b [H|H]]]; [left | right]; now exists a, b.
Qed.

(** *** Phone cleaning *)

Lemma digit_or_plus_not_nan s :
  all_chars digit_or_plus s = true -> s <> "nan".
Proof. intros H ->. discriminate. Qed.

Lemma clean_phone_number_cases phone :
  let kept := keep_chars digit_or_plus phone in
  ((phone = "" \/ phone = "nan") /\ clean_phone_number phone = "")
  \/ (phone <> "" /\ phone <> "nan" /\ 10 <= String.length kept
      /\ clean_phone_number phone = kept)
  \/ (phone <> "" /\ phone <> "nan" /\ String.length kept < 10
      /\ clean_phone_number phone = phone).
Proof.
  intros kept. unfold clean_phone_number. fold kept.
  destruct (String.eqb_spec phone "") as [->|H1]; [left; split; [now left | reflexivity]|].
  destruct (String.eqb_spec phone "nan") as [->|H2]; [left; split; [now right | reflexivity]|].
  cbn [orb]. destruct (Nat.leb_spec 10 (String.length kept)); right; [left | right];
    repeat split; assumption.
Qed.

(** Cleaning a cleaned phone changes nothing; and what cleaning returns is
    empty, or the raw string, or ten or more digits and plus signs. *)
Theorem clean_phone_number_idempotent phone :
  clean_phone_number (clean_phone_number phone) = clean_phone_number phone
  /\ (clean_phone_number phone = ""
      \/ clean_phone_number phone = phone
      \/ (10 <= String.length (clean_phone_number phone)
          /\ all_chars digit_or_plus (clean_phone_number phone) = true)).
Proof.
  pose proof (keep_chars_all digit_or_plus phone) as Hall.
  destruct (clean_phone_number_cases phone)
    as [[_ E] | [[H1 [H2 [Hlen E]]] | [H1 [H2 [Hlen E]]]]]; rewrite E.
  - split; [reflexivity | now left].
  - split; [|right; right; now split].
    set (c := keep_chars digit_or_plus phone) in *.
    destruct (clean_phone_number_cases c)
      as [[[Hc|Hc] _] | [[_ [_ [_ E']]] | [_ [_ [Hlen' _]]]]].
    + rewrite Hc in Hlen. simpl in Hlen. lia.
    + now apply digit_or_plus_not_nan in Hall.
    + rewrite E'. now apply keep_chars_fixed.
    + rewrite (keep_chars_fixed _ _ Hall) in Hlen'. lia.
  - split; [exact E | right; now left].
Qed.

(** *** The name of the result file *)

Lemma sub_runs_word cls in_run s :
  all_chars (fun c => is_word c || cls c) s = true ->
  all_chars is_word (sub_runs cls in_run s) = true.
Proof.
  unfold all_chars. revert in_run.
  induction s as [|c s IH]; intros in_run; simpl; [reflexivity|].
  intros H. apply andb_true_iff in H. destruct H as [H1 H2].
  destruct (cls c) eqn:E.
  - destruct in_run; simpl; now rewrite ?IH.
  - rewrite orb_false_r in H1. simpl. now rewrite H1, IH.
Qed.

Lemma is_word_no_slash s : all_chars is_word s = true -> has_char "/" s = false.
Proof.
  unfold all_chars. induction s as [|c s IH]; simpl; [reflexivity|].
  intros H. apply andb_true_iff in H. destruct H as [H1 H2]. rewrite (IH H2).
  destruct (Ascii.eqb_spec "/" c) as [<-|_]; [discriminate | reflexivity].
Qed.

(** Whatever the search query, what is left of it in the name of the
    result file is made of letters, digits and underscores: no slash, no
    dot and no space of the query reaches the file name. *)
Theorem clean_query_is_a_word search_query :
  all_chars is_word (clean_query search_query) = true
  /\ has_char "/" (clean_query search_query) = false
  /\ (forall timestamp,
         has_char "/" timestamp = false ->
         has_char "/" (result_filename search_query timestamp) = false).
Proof.
  assert (all_chars is_word (clean_query search_query) = true) as H.
  { unfold clean_query. apply sub_runs_word.
    eapply all_chars_weaken; [|apply keep_chars_all].
    intros c. unfold word_space_dash, dash_or_space.
    destruct (is_word c); destruct (is_space c); destruct (Ascii.eqb c "-");
      simpl; congruence. }
  split; [exact H|]. split; [now apply is_word_no_slash|].
  intros timestamp Ht. unfold result_filename.
  destruct (truthy search_query);
    rewrite !has_char_app, ?(is_word_no_slash _ H), Ht; reflexivity.
Qed.

Lemma clean_query_witness :
  clean_query "pizza / New-York  (best!)" = "pizza_New_York_best"
  /\ has_char "/" (result_filename "a/../b" "20240101_120000") = false.
Proof.
  split; [reflexivity|].
  destruct (clean_query_is_a_word "a/../b") as [_ [_ H]]. apply H. reflexivity.
Defined.

(** *** Opening the map *)

(** [open_google_maps_and_wait] never raises.  It answers [True] exactly
    when the page loads, two lines are typed and the feed shows up; the
    query is replaced by the first line, stripped, when the page loaded and
    that line is not blank.  What the consent buttons do changes neither. *)
Theorem open_google_maps_and_wait_spec o st :
  let run := open_google_maps_and_wait o st in
  (exists b, snd run = Ret b)
  /\ (snd run = Ret true <->
      driver_get o = None /\ 2 <= List.length (pending st)
      /\ feed_present o = None)
  /\ search_query (fst run)
     = match driver_get o, pending st with
       | None, line :: _ =>
           if truthy (strip line) then strip line else search_query st
       | _, _ => search_query st
       end.
Proof.
  destruct o as [g buttons lines f]. destruct st as [q pend].
  unfold open_google_maps_and_wait, handle_consent, attempt, bind, answer,
    input, set_search_query, ret, raise.
  cbn [driver_get accept_buttons feed_present pending search_query].
  destruct g as [msg|]; cbn [fst snd search_query].
  { split; [now eexists|]. split; [|reflexivity].
    split; [discriminate | intros [H _]; discriminate]. }
  destruct pend as [|line1 [|line2 rest]]; cbn [List.length].
  - destruct buttons as [[|[m|] bs]|m]; cbn [fst snd search_query];
      (split; [now eexists|]); (split; [|reflexivity]);
      (split; [discriminate | intros [_ [H _]]; lia]).
  - destruct buttons as [[|[m|] bs]|m]; cbn [fst snd search_query pending];
      destruct (truthy (strip line1)); cbn [fst snd search_query pending];
      (split; [now eexists|]); (split; [|reflexivity]);
      (split; [discriminate | intros [_ [H _]]; lia]).
  - destruct buttons as [[|[m|] bs]|m]; cbn [fst snd search_query pending];
      destruct (truthy (strip line1)); cbn [fst snd search_query pending];
      destruct f as [m'|]; cbn [fst snd search_query pending];
      (split; [now eexists|]); (split; [|reflexivity]);
      (split; [try discriminate; intros _; repeat split; lia
              | try reflexivity; intros [_ [_ H]]; discriminate]).
Qed.

End MapsRunFacts.

(** ** The detail parse: what the fields hold *)

Module ParseFacts.
Import PyStr PyStrFacts Maps MapsFacts MapsRun MapsRunFacts.

Local Open Scope computation_scope.

(** *** Character classes *)

Lemma take_class_all cls s : all_chars cls (take_class cls s) = true.
Proof.
  unfold all_chars. induction s as [|c s IH]; simpl; [reflexivity|].
  destruct (cls c) eqn:E; simpl; [now rewrite E | reflexivity].
Qed.

(** What [re.search] finds for a character class is a run of the class
    that is not empty. *)
Lemma search_class_some cls s m :
  search_class cls s = Some m -> m <> "" /\ all_chars cls m = true.
Proof.
  induction s as [|c s IH]; simpl; [discriminate|].
  destruct (cls c) eqn:E; [|exact IH].
  intros [= <-]. split; [discriminate|].
  pose proof (take_class_all cls (String c s)) as H. simpl in H.
  now rewrite E in H.
Qed.

Lemma substring_all s : substring 0 (String.length s) s = s.
Proof. induction s as [|c s IH]; simpl; [reflexivity | now rewrite IH]. Qed.

Lemma remove_all_comma_step fuel c s :
  remove_all (S fuel) "," (String c s)
  = if Ascii.eqb c "," then remove_all fuel "," s
    else String c (remove_all fuel "," s).
Proof.
  cbn [remove_all String.prefix].
  change (String.eqb "," "") with false. cbn [negb].
  destruct (Ascii.ascii_dec "," c) as [<-|Hne].
  - change (Ascii.eqb "," ",") with true.
    replace (String.prefix "" s) with true by (now destruct s).
    cbn [andb String.length Nat.sub substring].
    rewrite Nat.sub_0_r, substring_all. reflexivity.
  - cbn [andb]. destruct (Ascii.eqb_spec c ","); [congruence | reflexivity].
Qed.

(** [m.replace(',', '')] keeps the other characters. *)
Lemma remove_all_comma fuel :
  forall s,
    String.length s <= fuel ->
    remove_all fuel "," s = keep_chars (fun c => negb (Ascii.eqb c ",")) s.
Proof.
  induction fuel as [|fuel IH]; intros [|c s] Hlen; try reflexivity;
    [simpl in Hlen; lia|].
  simpl in Hlen. rewrite remove_all_comma_step. cbn [keep_chars].
  destruct (Ascii.eqb c ","); cbn [negb]; now rewrite IH by lia.
Qed.

Lemma replace_comma_digits m :
  all_chars digit_or_comma m = true ->
  all_chars is_digit (replace_empty m ",") = true.
Proof.
  intros H. unfold replace_empty. rewrite remove_all_comma by lia.
  unfold all_chars in *. induction m as [|c m IH]; simpl; [reflexivity|].
  simpl in H. apply andb_true_iff in H. destruct H as [H1 H2].
  destruct (Ascii.eqb_spec c ",") as [->|Hne]; simpl; [now apply IH|].
  rewrite IH by exact H2. unfold digit_or_comma in H1.
  destruct (Ascii.eqb_spec c ","); [congruence|].
  rewrite orb_false_r in H1. now rewrite H1.
Qed.

(** *** What a computation keeps *)

Lemma keeps_ret (I : details -> Prop) {A : Type} (a : A) :
  keeps I (ret a : parser A).
Proof. intros st H. exact H. Qed.

Lemma keeps_raise (I : details -> Prop) {A : Type} msg :
  keeps I (raise msg : parser A).
Proof. intros st H. exact H. Qed.

Lemma keeps_lift (I : details -> Prop) {A : Type} (r : outcome A) :
  keeps I (lift r).
Proof. intros st H. exact H. Qed.

Lemma keeps_current (I : details -> Prop) : keeps I current.
Proof. intros st H. exact H. Qed.

Lemma keeps_assign (I : details -> Prop) f :
  (forall d, I d -> I (f d)) -> keeps I (assign f).
Proof. intros Hf st H. simpl. now apply Hf. Qed.

Lemma keeps_bind (I : details -> Prop) {A B : Type}
    (m : parser A) (k : A -> parser B) :
  keeps I m -> (forall a, keeps I (k a)) -> keeps I (bind m k).
Proof.
  intros Hm Hk st H. unfold bind. specialize (Hm st H).
  destruct (m st) as [st' [a|msg]]; simpl in *; [now apply Hk | exact Hm].
Qed.

Lemma keeps_try_pass (I : details -> Prop) m : keeps I m -> keeps I (try_pass m).
Proof.
  intros Hm st H. unfold try_pass. specialize (Hm st H). now destruct (m st).
Qed.

Lemma keeps_find_element (I : details -> Prop) driver sel :
  keeps I (driver_find_element driver sel).
Proof. intros st H. exact H. Qed.

Lemma keeps_find_elements (I : details -> Prop) driver sel :
  keeps I (driver_find_elements driver sel).
Proof. intros st H. exact H. Qed.

(** Splits a computation along its binds and its tests, down to the
    assignments. *)
Ltac frame :=
  repeat first
    [ apply keeps_ret | apply keeps_raise | apply keeps_lift
    | apply keeps_current | apply keeps_find_element
    | apply keeps_find_elements | apply keeps_try_pass
    | apply keeps_bind; [|intros ?]
    | match goal with
      | |- keeps _ (if ?b then _ else _) => destruct b eqn:?
      | |- keeps _ (match ?x with _ => _ end) => destruct x eqn:?
      end
    | progress cbv beta zeta ].

Section Fields.

Variable re_findall : string -> string -> list string.
Variable driver : Panel.

(** **** The phone found in a text *)

Lemma first_long_match_some patterns text phone :
  first_long_match re_findall patterns text = Some phone ->
  10 <= String.length phone
  /\ exists pattern found rest,
      In pattern patterns
      /\ re_findall pattern text = found :: rest
      /\ phone = strip found.
Proof.
  induction patterns as [|pattern patterns IH]; cbn [first_long_match];
    [discriminate|].
  destruct (re_findall pattern text) as [|found rest] eqn:E.
  - intros H. destruct (IH H) as [Hl [p [f [r [Hin H']]]]].
    split; [exact Hl|]. exists p, f, r. split; [now right | exact H'].
  - destruct (Nat.leb_spec 10 (String.length (strip found))) as [Hl|Hl].
    + intros [= <-]. split; [exact Hl|].
      exists pattern, found, rest. split; [now left | now split].
    + intros H. destruct (IH H) as [Hl' [p [f [r [Hin H']]]]].
      split; [exact Hl'|]. exists p, f, r. split; [now right | exact H'].
Qed.

(** A phone taken from a text has ten characters or more: it is the
    first match, stripped, of one of the three patterns on the stripped text.
    An empty text, or a text in which no pattern matches, gives no phone. *)
Theorem extract_phone_from_text_long text :
  (forall phone,
      extract_phone_from_text re_findall text = Some phone ->
      10 <= String.length phone
      /\ text <> ""
      /\ exists pattern found rest,
          In pattern phone_patterns
          /\ re_findall pattern (strip text) = found :: rest
          /\ phone = strip found)
  /\ (text = "" -> extract_phone_from_text re_findall text = None)
  /\ ((forall pattern, re_findall pattern (strip text) = []) ->
      extract_phone_from_text re_findall text = None).
Proof.
  unfold extract_phone_from_text. split; [|split].
  - intros phone. unfold truthy.
    destruct (String.eqb_spec text ""); cbn [negb]; [discriminate|].
    intros H. destruct (first_long_match_some _ _ _ H) as [Hl Hex].
    now repeat split.
  - intros ->. reflexivity.
  - intros Hnone. destruct (negb (truthy text)); [reflexivity|].
    unfold phone_patterns. cbn [first_long_match]. now rewrite !Hnone.
Qed.

(** **** What the blocks keep *)

Lemma keeps_label_or_text (I : details -> Prop) el : keeps I (label_or_text el).
Proof. unfold label_or_text. frame. Qed.

Lemma keeps_after_colon (I : details -> Prop) a : keeps I (after_colon a).
Proof. unfold after_colon. frame. Qed.

Ltac assigned H :=
  apply keeps_assign; intros ? ?; now apply H.

Lemma extract_category_keeps I : plain_stable I -> keeps I (extract_category driver).
Proof. intros H. unfold extract_category. frame. assigned H. Qed.

Lemma extract_info_keeps I button :
  plain_stable I -> keeps I (extract_info re_findall button).
Proof.
  intros H. unfold extract_info. frame;
    try apply keeps_after_colon; frame; assigned H.
Qed.

Lemma extract_infos_keeps I buttons :
  plain_stable I -> keeps I (extract_infos re_findall buttons).
Proof.
  intros H. induction buttons as [|b buttons IH]; simpl.
  - apply keeps_ret.
  - apply keeps_bind; [now apply extract_info_keeps | intros _; exact IH].
Qed.

Lemma extract_tel_link_keeps I : plain_stable I -> keeps I (extract_tel_link driver).
Proof. intros H. unfold extract_tel_link. frame. assigned H. Qed.

Lemma extract_hours_keeps I : plain_stable I -> keeps I (extract_hours driver).
Proof. intros H. unfold extract_hours. frame. assigned H. Qed.

Lemma extract_price_keeps I : plain_stable I -> keeps I (extract_price driver).
Proof.
  intros H. unfold extract_price. frame;
    try apply keeps_label_or_text; frame; assigned H.
Qed.

Lemma extract_email_keeps I : plain_stable I -> keeps I (extract_email re_findall driver).
Proof. intros H. unfold extract_email. frame. assigned H. Qed.

Lemma extract_name_keeps I selectors :
  (forall v d, I d -> I (set_name v d)) ->
  keeps I (extract_name driver selectors).
Proof.
  intros H. induction selectors as [|sel selectors IH]; intros st Hst; simpl;
    [exact Hst|].
  match goal with
  | |- context [let (_, _) := ?m st in _] =>
      assert (keeps I m) as K
        by (frame; apply keeps_assign; intros ? ?; now apply H);
      specialize (K st Hst); destruct (m st) as [st1 [[|]|msg]]
  end; simpl in K; [exact K | now apply IH | now apply IH].
Qed.

(** The whole parse keeps what its blocks keep. *)
Lemma extract_fields_keeps I :
  (forall v d, I d -> I (set_name v d)) ->
  keeps I (extract_rating_and_reviews driver) ->
  plain_stable I ->
  keeps I (extract_fields re_findall driver).
Proof.
  intros Hn Hr Hp. unfold extract_fields.
  apply keeps_bind; [now apply extract_name_keeps | intros _].
  apply keeps_bind; [now apply extract_category_keeps | intros _].
  apply keeps_bind; [apply keeps_find_elements | intros buttons].
  apply keeps_bind; [now apply extract_infos_keeps | intros _].
  apply keeps_bind; [now apply extract_tel_link_keeps | intros _].
  apply keeps_bind; [exact Hr | intros _].
  apply keeps_bind; [now apply extract_hours_keeps | intros _].
  apply keeps_bind; [now apply extract_price_keeps | intros _].
  now apply extract_email_keeps.
Qed.

Lemma extract_listing_details_record :
  snd (extract_listing_details_from_panel re_findall driver)
  = Ret (record (fst (extract_fields re_findall driver new_parse)))
  /\ record (fst (extract_listing_details_from_panel re_findall driver))
     = record (fst (extract_fields re_findall driver new_parse)).
Proof.
  unfold extract_listing_details_from_panel.
  now destruct (extract_fields re_findall driver new_parse) as [st [u|msg]].
Qed.

(** **** The rating and the review count *)

Lemma rating_keeps_numeric : keeps numeric (extract_rating_and_reviews driver).
Proof.
  unfold extract_rating_and_reviews. frame; try apply keeps_label_or_text; frame.
  - apply keeps_assign. intros d [H1 H2]. split; [|exact H2].
    intros r [= <-]. eapply search_class_some. eassumption.
  - apply keeps_assign. intros d [H1 H2]. split; [exact H1|].
    intros c [= <-]. apply replace_comma_digits.
    eapply search_class_some. eassumption.
Qed.

(** Whatever the panel shows, the rating of the returned record, when
    set, is a run of digits and dots that is not empty, and the review count,
    when set, is made of digits only. *)
Theorem rating_and_reviews_are_numeric :
  exists d,
    snd (extract_listing_details_from_panel re_findall driver) = Ret d
    /\ (forall r, rating d = Some r ->
                  r <> "" /\ all_chars digit_or_dot r = true)
    /\ (forall c, reviews_count d = Some c -> all_chars is_digit c = true).
Proof.
  destruct extract_listing_details_record as [-> _]. eexists. split; [reflexivity|].
  apply (extract_fields_keeps numeric).
  - intros v d H. exact H.
  - apply rating_keeps_numeric.
  - intros v d H. exact (conj H (conj H (conj H (conj H (conj H (conj H H)))))).
  - split; discriminate.
Qed.

(** **** The name *)

Lemma extract_name_first_heading selectors :
  forall st,
    name (record (fst (extract_name driver selectors st)))
    = match first_heading driver selectors with
      | Some n => Some n
      | None => name (record st)
      end.
Proof.
  induction selectors as [|sel selectors IH]; intros st; [reflexivity|].
  cbn [extract_name first_heading].
  unfold bind at 1, driver_find_element at 1.
  destruct (find_element driver sel) as [el|msg]; [|now rewrite IH].
  unfold bind at 1, lift at 1.
  destruct (text el) as [t|msg] eqn:Et; [|now rewrite IH].
  destruct (truthy t) eqn:Ht; [|unfold ret; now rewrite IH].
  unfold bind, lift, assign, ret. reflexivity.
Qed.

(** The name of the returned record is the stripped text of the first
    name selector, in order, whose element is found and has a text; selectors
    that raise or have no text are passed over, and no later block touches
    the name.  So the record has a name that the loop keeps exactly when that
    stripped text is not empty. *)
Theorem name_is_the_first_heading :
  exists d,
    snd (extract_listing_details_from_panel re_findall driver) = Ret d
    /\ name d = first_heading driver name_selectors
    /\ named d = truthy_opt (first_heading driver name_selectors).
Proof.
  destruct extract_listing_details_record as [-> _]. eexists. split; [reflexivity|].
  assert (name (record (fst (extract_fields re_findall driver new_parse)))
          = first_heading driver name_selectors) as H.
  { unfold extract_fields. unfold bind at 1.
    pose proof (extract_name_first_heading name_selectors new_parse) as Hn.
    destruct (extract_name_guarded driver name_selectors new_parse)
      as [st1 [E _]].
    rewrite E in *. cbn [fst] in Hn.
    assert (name (record st1) = first_heading driver name_selectors) as Hn'
        by (rewrite Hn; now destruct (first_heading driver name_selectors)).
    clear Hn E. revert Hn'.
    generalize (first_heading driver name_selectors). intros n Hn'.
    revert st1 Hn'.
    change (keeps (fun d => name d = n)
              (extract_category driver ;;
               info_buttons <- driver_find_elements driver info_selector ;;
               extract_infos re_findall info_buttons ;;
               extract_tel_link driver ;;
               extract_rating_and_reviews driver ;;
               extract_hours driver ;;
               extract_price driver ;;
               extract_email re_findall driver)).
    assert (plain_stable (fun d => name d = n)) as Hp
        by (intros v d Hd; now repeat split).
    apply keeps_bind; [now apply extract_category_keeps | intros _].
    apply keeps_bind; [apply keeps_find_elements | intros buttons].
    apply keeps_bind; [now apply extract_infos_keeps | intros _].
    apply keeps_bind; [now apply extract_tel_link_keeps | intros _].
    apply keeps_bind; [|intros _].
    { unfold extract_rating_and_reviews.
      frame; try apply keeps_label_or_text; frame;
        apply keeps_assign; intros d Hd; exact Hd. }
    apply keeps_bind; [now apply extract_hours_keeps | intros _].
    apply keeps_bind; [now apply extract_price_keeps | intros _].
    now apply extract_email_keeps. }
  split; [exact H|]. unfold named. now rewrite H.
Qed.

(** **** A panel that shows nothing *)

(** When no element is found for any selector, the record that comes back
    has no field set: nothing is made up. *)
Theorem nothing_found_nothing_set :
  (forall sel, exists msg, find_element driver sel = Raise msg) ->
  (forall sel, find_elements driver sel = Ret []
               \/ exists msg, find_elements driver sel = Raise msg) ->
  snd (extract_listing_details_from_panel re_findall driver) = Ret no_details.
Proof.
  intros Hone Hall.
  destruct extract_listing_details_record as [E1 E2].
  assert (record (fst (extract_fields re_findall driver new_parse)) = no_details)
    as H.
  { unfold extract_fields, name_selectors, extract_name, extract_category,
      extract_tel_link, extract_rating_and_reviews, extract_hours,
      extract_price, extract_email, try_pass, bind, driver_find_element,
      driver_find_elements, current, ret.
    repeat match goal with
           | |- context [find_element driver ?sel] =>
               let msg := fresh "msg" in
               let E := fresh "E" in
               destruct (Hone sel) as [msg E]; rewrite E; clear E
           end.
    cbn [fst snd record asked phone no_details new_parse truthy_opt negb].
    destruct (Hall info_selector) as [E|[? E]]; rewrite E;
      cbn [extract_infos ret fst snd record asked phone no_details new_parse
             truthy_opt negb]; [|reflexivity].
    destruct (Hall tel_selector) as [E'|[? E']]; rewrite E'; reflexivity. }
  now rewrite E1, H.
Qed.

End Fields.

(** A panel on which every query fails. *)
Definition blank_panel : Panel :=
  {| find_element := fun _ => Raise "no such element";
     find_elements := fun _ => Ret [] |}.

Lemma nothing_found_witness :
  snd (extract_listing_details_from_panel no_matches blank_panel) = Ret no_details.
Proof.
  apply (nothing_found_nothing_set no_matches blank_panel).
  - intros sel. now exists "no such element".
  - intros sel. now left.
Defined.

End ParseFacts.

(** ** The loop: its books, its exits and its helper methods *)

Module LoopRunFacts.
Import PyStr Maps MapsFacts MapsRun.

Local Open Scope computation_scope.

(** *** The helper methods *)

Section Clicking.

Variable D : Type.
Variable Feed : Type.
Variable Link : Type.
Variable find_feed : computation D Feed.
Variable find_listings : Feed -> computation D (list Link).
Variable scroll_into_view : Link -> computation D unit.
Variable click_link : Link -> computation D unit.

(** [click_listing_by_index] never raises.  It answers [True] exactly when
    the feed and its links are found, the index is one of the links, and both
    scripts run; an index past the last link gives [False] with no script
    run at all. *)
Theorem click_listing_by_index_spec index d :
  let run :=
    click_listing_by_index D Feed Link find_feed find_listings
      scroll_into_view click_link index d in
  (exists b, snd run = Ret b)
  /\ (snd run = Ret true <->
      exists results_panel d1 listings d2 listing d3 d4,
        find_feed d = (d1, Ret results_panel)
        /\ find_listings results_panel d1 = (d2, Ret listings)
        /\ listings !! index = Some listing
        /\ scroll_into_view listing d2 = (d3, Ret tt)
        /\ click_link listing d3 = (d4, Ret tt))
  /\ (forall results_panel d1 listings d2,
         find_feed d = (d1, Ret results_panel) ->
         find_listings results_panel d1 = (d2, Ret listings) ->
         List.length listings <= index ->
         run = (d2, Ret false)).
Proof.
  cbv zeta. unfold click_listing_by_index, attempt, bind, ret.
  destruct (find_feed d) as [d1 [results_panel|msg]] eqn:Ef.
  2:{ split; [now eexists|]. split; [split; [discriminate|]|].
      - intros (? & ? & ? & ? & ? & ? & ? & E1 & _). congruence.
      - intros ? ? ? ? [=]. }
  destruct (find_listings results_panel d1) as [d2 [listings|msg]] eqn:Eg.
  2:{ split; [now eexists|]. split; [split; [discriminate|]|].
      - intros (? & ? & ? & ? & ? & ? & ? & E1 & E2 & _). congruence.
      - intros ? ? ? ? E1 E2. congruence. }
  destruct (listings !! index) as [listing|] eqn:El.
  2:{ split; [now eexists|]. split; [split; [discriminate|]|].
      - intros (? & ? & ? & ? & ? & ? & ? & E1 & E2 & E3 & _). congruence.
      - intros ? ? ? ? E1 E2 _. congruence. }
  assert (forall results_panel' d1' listings' d2',
             (d1, Ret results_panel) = (d1', Ret results_panel') ->
             find_listings results_panel' d1' = (d2', Ret listings') ->
             ~ List.length listings' <= index) as Hin.
  { intros ? ? ? ? E1 E2 Hl.
    assert (listings' = listings) as -> by congruence.
    apply lookup_lt_Some in El. lia. }
  destruct (scroll_into_view listing d2) as [d3 [[]|msg]] eqn:Es.
  2:{ split; [now eexists|]. split; [split; [discriminate|]|].
      - intros (? & ? & ? & ? & ? & ? & ? & E1 & E2 & E3 & E4 & _).
        congruence.
      - intros ? ? ? ? E1 E2 Hl. now destruct (Hin _ _ _ _ E1 E2). }
  destruct (click_link listing d3) as [d4 [[]|msg]] eqn:Ec.
  - split; [now eexists|]. split; [split|].
    + intros _. now exists results_panel, d1, listings, d2, listing, d3, d4.
    + reflexivity.
    + intros ? ? ? ? E1 E2 Hl. now destruct (Hin _ _ _ _ E1 E2).
  - split; [now eexists|]. split; [split; [discriminate|]|].
    + intros (? & ? & ? & ? & ? & ? & ? & E1 & E2 & E3 & E4 & E5).
      congruence.
    + intros ? ? ? ? E1 E2 Hl. now destruct (Hin _ _ _ _ E1 E2).
Qed.

End Clicking.

(** *** The books of the loop *)

Section Books.

Variable W : Type.
Variable stop_extraction : W -> W * bool.
Variable get_total_results_count : W -> W * outcome nat.
Variable click_listing_by_index : nat -> W -> W * outcome bool.
Variable extract_listing_details_from_panel : W -> W * outcome details.
Variable scroll_results_panel : W -> W * outcome bool.

Abbreviation session := (session W).
Abbreviation read_stop := (read_stop W stop_extraction).
Abbreviation count := (count W get_total_results_count).
Abbreviation scroll := (scroll W scroll_results_panel).
Abbreviation try_listing :=
  (try_listing W click_listing_by_index extract_listing_details_from_panel).
Abbreviation scroll_after_failures :=
  (scroll_after_failures W scroll_results_panel).
Abbreviation visit :=
  (visit W stop_extraction click_listing_by_index
     extract_listing_details_from_panel scroll_results_panel).
Abbreviation scan :=
  (scan W stop_extraction click_listing_by_index
     extract_listing_details_from_panel scroll_results_panel).
Abbreviation load_more := (load_more W scroll_results_panel).
Abbreviation round :=
  (round W stop_extraction get_total_results_count click_listing_by_index
     extract_listing_details_from_panel scroll_results_panel).
Abbreviation extract_loop :=
  (extract_loop W stop_extraction get_total_results_count
     click_listing_by_index extract_listing_details_from_panel
     scroll_results_panel).

Lemma booked_on_page n c w (s : session) :
  booked n s -> booked n (on_page c w s).
Proof.
  intros (H1 & H2 & H3). unfold booked. simpl. rewrite clicks_app.
  repeat split; [exact H1 | | lia].
  intros i Hi. apply in_or_app. left. now apply H2.
Qed.

Lemma booked_read_stop n s : booked n s -> booked n (fst (read_stop s)).
Proof.
  unfold Maps.read_stop. destruct (stop_extraction (page s)).
  apply booked_on_page.
Qed.

Lemma booked_count n s : booked n s -> booked n (fst (count s)).
Proof.
  unfold Maps.count. destruct (get_total_results_count (page s)).
  apply booked_on_page.
Qed.

Lemma booked_scroll n s : booked n s -> booked n (fst (scroll s)).
Proof.
  unfold Maps.scroll. destruct (scroll_results_panel (page s)).
  apply booked_on_page.
Qed.

Lemma booked_scrolled n grew (s : session) :
  booked n s -> booked n (scrolled grew s).
Proof. now destruct grew. Qed.

Lemma booked_failed n (s : session) : booked n s -> booked n (failed s).
Proof. trivial. Qed.

(** One record, one index and at least one click more. *)
Lemma booked_keep n d i c w (s : session) :
  i ∉ processed_indices s ->
  booked n s -> booked n (keep d i (on_page c w (on_page (Click i) w s))).
Proof.
  intros Hi (H1 & H2 & H3). unfold booked. simpl.
  rewrite length_app, size_union, size_singleton, !clicks_app by set_solver.
  simpl. repeat split; [lia | | lia].
  intros j Hj. rewrite !in_app_iff. simpl.
  apply elem_of_union in Hj. destruct Hj as [Hj|Hj].
  - apply elem_of_singleton in Hj. subst j. auto.
  - left. left. now apply H2.
Qed.

Lemma booked_try_listing n i s :
  i ∉ processed_indices s -> booked n s -> booked n (fst (try_listing i s)).
Proof.
  intros Hi H.
  unfold Maps.try_listing, Maps.click, Maps.extract, listing_error.
  destruct (click_listing_by_index i (page s)) as [w1 [[|]|msg]]; simpl;
    try now apply booked_failed, booked_on_page.
  destruct (extract_listing_details_from_panel w1) as [w2 [d|msg]]; simpl;
    try now apply booked_failed, booked_on_page, booked_on_page.
  destruct (named d); simpl;
    [|now apply booked_failed, booked_on_page, booked_on_page].
  unfold booked in *. destruct H as (H1 & H2 & H3). simpl.
  rewrite length_app, size_union, size_singleton, !clicks_app by set_solver.
  simpl. repeat split; [lia | | lia].
  intros j Hj. rewrite !in_app_iff. simpl.
  apply elem_of_union in Hj. destruct Hj as [Hj|Hj].
  - apply elem_of_singleton in Hj. subst j. auto.
  - left. left. now apply H2.
Qed.

Lemma booked_scroll_after_failures n s :
  booked n s -> booked n (fst (scroll_after_failures s)).
Proof.
  intros H. unfold Maps.scroll_after_failures.
  destruct (3 <? consecutive_failures s)%nat; [|exact H].
  pose proof (booked_scroll n s H) as Hs.
  destruct (scroll s) as [s1 [grew|msg]]; simpl in *; [|exact Hs].
  destruct grew; exact Hs.
Qed.

Lemma booked_visit n i s : booked n s -> booked n (fst (visit i s)).
Proof.
  intros H. unfold Maps.visit.
  pose proof (booked_read_stop n s H) as Hr.
  destruct (read_stop s) as [s0 stop]; simpl in Hr.
  destruct stop; [exact Hr|].
  destruct (bool_decide (i ∈ processed_indices s0)) eqn:E; [exact Hr|].
  apply bool_decide_eq_false in E.
  pose proof (booked_try_listing n i s0 E Hr) as Ht.
  destruct (try_listing i s0) as [s1 c]; simpl in Ht.
  destruct c; [|exact Ht]. now apply booked_scroll_after_failures.
Qed.

Lemma booked_scan n indices : forall s, booked n s -> booked n (scan indices s).
Proof.
  induction indices as [|i indices IH]; intros s H; simpl; [exact H|].
  pose proof (booked_visit n i s H) as Hv.
  destruct (visit i s) as [s' c]; simpl in Hv.
  destruct c; [now apply IH | exact Hv].
Qed.

Lemma booked_load_more n s : booked n s -> booked n (fst (load_more s)).
Proof.
  intros H. unfold Maps.load_more.
  pose proof (booked_scroll n s H) as Hs.
  destruct (scroll s) as [s1 [grew|msg]]; simpl in Hs.
  - destruct (3 <? _)%nat; simpl; now apply booked_scrolled.
  - destruct (connection_lost msg); [exact Hs|].
    destruct (3 <? _)%nat; exact Hs.
Qed.

Lemma booked_round n s : booked n s -> booked n (fst (round s)).
Proof.
  intros H. unfold Maps.round.
  pose proof (booked_read_stop n s H) as Hr.
  destruct (read_stop s) as [s0 stop]; simpl in Hr.
  destruct stop; [exact Hr|].
  pose proof (booked_count n s0 Hr) as Hc.
  destruct (count s0) as [s1 [[|k]|msg]]; simpl in Hc; try exact Hc.
  pose proof (booked_scan n (seq 0 (S k)) s1 Hc) as Hs.
  pose proof (booked_read_stop n _ Hs) as Hr2.
  destruct (read_stop (scan (seq 0 (S k)) s1)) as [s3 stop3]; simpl in Hr2.
  destruct stop3; [exact Hr2|]. now apply booked_load_more.
Qed.

Lemma booked_extract_loop n fuel :
  forall s, booked n s -> booked n (fst (extract_loop fuel s)).
Proof.
  induction fuel as [|fuel IH]; intros s H; simpl; [exact H|].
  pose proof (booked_round n s H) as Hr.
  destruct (round s) as [s' [why|]]; simpl in Hr; [exact Hr|].
  now apply IH.
Qed.

(** However the run goes and wherever it stands, its results are the
    records it was entered with and one record for each index marked as
    processed: no index gives two records.  Every processed index was
    clicked, and there are no more new records than clicks. *)
Theorem one_record_for_each_processed_index fuel found w :
  let s := fst (extract_loop fuel (enter found w)) in
  List.length (results s) = List.length found + size (processed_indices s)
  /\ (forall i, i ∈ processed_indices s -> In (Click i) (calls s))
  /\ List.length (results s) <= List.length found + clicks (calls s).
Proof.
  apply (booked_extract_loop (List.length found) fuel (enter found w)).
  unfold booked, enter. cbn [results processed_indices calls].
  split; [|split].
  - rewrite size_empty. lia.
  - intros i Hi. now apply elem_of_empty in Hi.
  - lia.
Qed.

(** *** The exits of the loop *)

Section Exits.

Hypothesis count_returns :
  forall w, exists n, snd (get_total_results_count w) = Ret n.
Hypothesis scroll_returns :
  forall w, exists grew, snd (scroll_results_panel w) = Ret grew.

Lemma round_left_by_test s why :
  snd (round s) = Some why -> left_by_test why.
Proof.
  unfold Maps.round, Maps.read_stop, Maps.count, Maps.load_more, Maps.scroll,
    left_by_test.
  destruct (stop_extraction (page s)) as [w0 [|]]; simpl;
    [intros [= <-]; auto|].
  destruct (count_returns w0) as [n Hn].
  destruct (get_total_results_count w0) as [w1 r]. simpl in Hn. subst r.
  destruct n as [|k]; [intros [= <-]; auto|].
  destruct (stop_extraction _) as [w3 [|]]; simpl; [intros [= <-]; auto|].
  destruct (scroll_returns w3) as [grew Hg].
  destruct (scroll_results_panel w3) as [w4 r]. simpl in Hg. subst r.
  destruct (3 <? _)%nat; [intros [= <-]; auto | discriminate].
Qed.

Lemma extract_loop_left_by_test fuel :
  forall s why, snd (extract_loop fuel s) = Finished why -> left_by_test why.
Proof.
  induction fuel as [|fuel IH]; intros s why; simpl; [discriminate|].
  pose proof (round_left_by_test s) as Hr.
  destruct (round s) as [s' [why'|]]; simpl in Hr.
  - intros [= <-]. now apply Hr.
  - apply IH.
Qed.

End Exits.

End Books.

(** With the helper methods of the class, whose own [except] clauses
    answer [False] or 0, the loop ends by the stop flag, by an empty feed or
    by the no-growth counter, and in no other way: neither the handler of a
    lost browser after the last scroll nor the outer [except] is ever
    reached, and no listing leaves the scan by its [except]. *)
Theorem own_helpers_leave_three_exits
    (D Feed Link : Type) (stop_extraction : D -> D * bool)
    (find_feed : computation D Feed)
    (find_listings : Feed -> computation D (list Link))
    (scroll_into_view click_link : Link -> computation D unit)
    (scroll_to_bottom : Feed -> computation D unit)
    (re_findall : string -> string -> list string) (panel : D -> Panel)
    (fuel : nat) (s : session D) :
  let click :=
    click_listing_by_index D Feed Link find_feed find_listings
      scroll_into_view click_link in
  let status :=
    snd (extract_loop D stop_extraction
           (get_total_results_count D Feed Link find_feed find_listings)
           click (parse_panel D re_findall panel)
           (scroll_results_panel D Feed Link find_feed find_listings
              scroll_to_bottom)
           fuel s) in
  (status = Running \/ status = Finished StopRequested
   \/ status = Finished NoListings \/ status = Finished NoMoreResults)
  /\ (forall i s', snd (try_listing D click (parse_panel D re_findall panel) i s')
                   = Next).
Proof.
  cbv zeta.
  pose proof (helpers_return D Feed Link find_feed find_listings
                scroll_into_view click_link scroll_to_bottom)
    as (Hcount & Hclick & Hscroll & Hparse).
  split.
  - pose proof (extract_loop_left_by_test D stop_extraction
                  (get_total_results_count D Feed Link find_feed find_listings)
                  (click_listing_by_index D Feed Link find_feed find_listings
                     scroll_into_view click_link)
                  (parse_panel D re_findall panel)
                  (scroll_results_panel D Feed Link find_feed find_listings
                     scroll_to_bottom)
                  Hcount Hscroll fuel s) as H.
    destruct (snd (extract_loop _ _ _ _ _ _ _ _)) as [why|]; [|now left].
    destruct (H why eq_refl) as [-> | [-> | ->]]; auto.
  - intros i s'. apply try_listing_goes_on; intros w; [apply Hclick | apply Hparse].
Qed.

(** When the page has no results feed, the count is 0 and the extraction
    ends at once: it returns the results as they stood, having read the stop
    flag and counted, without a click or a scroll, and without an error. *)
Theorem missing_feed_ends_the_extraction
    (D Feed Link : Type) (stop_extraction : D -> D * bool)
    (find_feed : computation D Feed)
    (find_listings : Feed -> computation D (list Link))
    (scroll_into_view click_link : Link -> computation D unit)
    (scroll_to_bottom : Feed -> computation D unit)
    (re_findall : string -> string -> list string) (panel : D -> Panel)
    (fuel : nat) (found : list details) (w w1 w2 : D) (msg : string) :
  stop_extraction w = (w1, false) ->
  find_feed w1 = (w2, Raise msg) ->
  let run :=
    extract_loop D stop_extraction
      (get_total_results_count D Feed Link find_feed find_listings)
      (click_listing_by_index D Feed Link find_feed find_listings
         scroll_into_view click_link)
      (parse_panel D re_findall panel)
      (scroll_results_panel D Feed Link find_feed find_listings
         scroll_to_bottom)
      (S fuel) (enter found w) in
  snd run = Finished NoListings
  /\ results (fst run) = found
  /\ calls (fst run) = [ReadStop; Count]
  /\ extract_all_results D stop_extraction
       (get_total_results_count D Feed Link find_feed find_listings)
       (click_listing_by_index D Feed Link find_feed find_listings
          scroll_into_view click_link)
       (parse_panel D re_findall panel)
       (scroll_results_panel D Feed Link find_feed find_listings
          scroll_to_bottom)
       (S fuel) found w
     = Some found.
Proof.
  intros Hs Hf. cbv zeta. unfold extract_all_results.
  cbn [extract_loop]. unfold round, read_stop, count. cbn [page enter].
  rewrite Hs. cbn [page on_page].
  rewrite (get_total_results_count_unreadable D Feed Link find_feed
             find_listings w1 w2 msg Hf).
  now repeat split.
Qed.

Lemma missing_feed_witness :
  extract_all_results nat still_stop
    (get_total_results_count nat unit nat lost_feed still_listings)
    (click_listing_by_index nat unit nat lost_feed still_listings
       still_script still_script)
    (parse_panel nat no_matches (fun _ => rated_panel))
    (scroll_results_panel nat unit nat lost_feed still_listings still_bottom)
    1 [] 3
  = Some [].
Proof.
  apply (missing_feed_ends_the_extraction nat unit nat still_stop lost_feed
           still_listings still_script still_script still_bottom no_matches
           (fun _ => rated_panel) 0 [] 3 3 3 "no such element");
    reflexivity.
Defined.

End LoopRunFacts.
